(** * Wendor placement: the VMC relay and the client vend state machine

    A shallow embedding of
      - [src/backend/server.js]: the product loader, the relay between
        the browser WebSocket server and the single upstream WebSocket to
        the vending-machine controller (VMC), and the payment endpoint;
      - [src/frontend/src/App.tsx] (the [Products] page) together with
        [src/frontend/src/services/websocket.ts]: the message handler that
        drives the vending overlay and the toast.

    The JavaScript module-level variables of [server.js] become the fields
    of one record that is threaded through every handler; a handler that
    can throw returns the state reached at the [throw].  React state and
    refs of the [Products] component become a second record. *)

From Stdlib Require Import ZArith Lia Ascii String.
From stdpp Require Import base list strings pretty.

Local Open Scope string_scope.
Local Open Scope list_scope.
Set Warnings "-register-all".

(** ** JavaScript values (the JSON fragment, plus [undefined]) *)

Module JS.

(** Numbers are restricted to integers: the only numbers the relay looks at
    are item identifiers, and the only test made on a number is whether it
    is truthy.  An object is its list of own properties, first match
    wins. *)
Inductive value : Type :=
| Undefined
| Null
| Bool (b : bool)
| Num (n : Z)
| Str (s : string)
| Arr (xs : list value)
| Obj (fields : list (string * value)).

(** [ToBoolean]: [undefined], [null], [false], [0] and the empty string are
    falsy, everything else (every array and object included) is truthy. *)
Definition truthy (v : value) : bool :=
  match v with
  | Undefined | Null => false
  | Bool b => b
  | Num n => negb (n =? 0)%Z
  | Str s => negb (String.eqb s "")
  | Arr _ | Obj _ => true
  end.

(** [Array.isArray] *)
Definition isArray (v : value) : bool :=
  match v with Arr _ => true | _ => false end.

Fixpoint assoc (k : string) (fs : list (string * value)) : value :=
  match fs with
  | [] => Undefined
  | (k', v) :: fs' => if String.eqb k k' then v else assoc k fs'
  end.

(** [v.k] for the property names the program reads ([items], [type],
    [status], [message], [success], [product_id], ...): none of them is
    [length] or an index, so a primitive or an array has no such property.
    Reading a property of [null] or [undefined] throws a [TypeError]:
    [None]. *)
Definition get (v : value) (k : string) : option value :=
  match v with
  | Undefined | Null => None
  | Obj fs => Some (assoc k fs)
  | _ => Some Undefined
  end.

(** [a ?? b] *)
Definition nullish (a b : value) : value :=
  match a with Undefined | Null => b | _ => a end.

(** [a || b] *)
Definition or (a b : value) : value := if truthy a then a else b.

(** [a === Str s] : strict equality against a string literal *)
Definition is_str (a : value) (s : string) : bool :=
  match a with Str s' => String.eqb s' s | _ => false end.

End JS.

(** ** HTTP responses: [res.status(n).json(v)]; [res.json(v)] is status 200 *)

Module Http.
Record Response := mkResponse { status : nat; body : JS.value }.
End Http.
Import Http.

(** ** The product loader of [server.js] (lines 53-99) *)

Module Catalog.

Inductive Error :=
| ReadError (path : string)     (* readFile rejected *)
| SyntaxError                   (* JSON.parse threw *)
| TypeError                     (* a property of null was read *)
| Failure (message : string).   (* new Error(message) *)

Section WithRuntime.

(** The file system and the runtime are parameters: [readFile p] is [None]
    where [await readFile(p, 'utf-8')] throws, [JSON_parse] is [None]
    where [JSON.parse] throws, [Number_ x] is [Number(x)] and is [None]
    where [Number(x)] throws: the conversion of an object to a primitive
    throws a [TypeError] when neither its [valueOf] nor its [toString]
    yields a primitive, as for the parsed [{toString: 0}]. *)
Variable readFile : string -> option string.
Variable JSON_parse : string -> option JS.value.
Variable Number_ : JS.value -> option JS.value.
Variable path_resolve : string -> string -> string.
Variable dirname cwd : string.

(** [mapProduct] (lines 57-69).  Every [raw.k] throws when [raw] is
    [null], and [Number] can throw on the price. *)
Definition mapProduct (raw : JS.value) : option JS.value :=
  product_id ← JS.get raw "product_id";
  product_name ← JS.get raw "product_name";
  product_price ← JS.get raw "product_price";
  price ← Number_ (JS.nullish product_price (JS.Num 0));
  image ← JS.get raw "image";
  category_id ← JS.get raw "category_id";
  sku_id ← JS.get raw "sku_id";
  brand_id ← JS.get raw "brand_id";
  Some (JS.Obj
    [("id", product_id);
     ("name", product_name);
     ("price", price);
     ("image_url", match image with
                   | JS.Str i => if String.prefix "http" i then image else JS.Str ""
                   | _ => JS.Str ""
                   end);
     ("category", JS.nullish category_id JS.Null);
     ("meta_data", JS.Obj [("sku_id", JS.nullish sku_id JS.Null);
                           ("brand_id", JS.nullish brand_id JS.Null)])]).

Definition candidates : list string :=
  [path_resolve dirname "../data.json";
   path_resolve dirname "../../data.json";
   path_resolve cwd "data.json";
   path_resolve cwd "../data.json"].

(** The body of the [try] of lines 80-83 for one candidate [p]. *)
Definition tryCandidate (p : string) : Error + list JS.value :=
  match readFile p with
  | None => inl (ReadError p)
  | Some content =>
      match JSON_parse content with
      | None => inl SyntaxError
      | Some (JS.Arr xs) =>
          match mapM mapProduct xs with
          | Some products => inr products
          | None => inl TypeError
          end
      | Some _ => inr []
      end
  end.

(** The loop of lines 79-88, from the candidates [ps] on. *)
Fixpoint loadFrom (ps : list string) (lastErr : option Error)
  : Error + list JS.value :=
  match ps with
  | [] => inl (default (Failure "Failed to read data.json") lastErr)
  | p :: ps' =>
      match tryCandidate p with
      | inr products => inr products
      | inl e => loadFrom ps' (Some e)
      end
  end.

Definition loadProducts : Error + list JS.value := loadFrom candidates None.

(** [GET /api/products] (lines 91-99) *)
Definition getProducts : Response :=
  match loadProducts with
  | inr products => mkResponse 200 (JS.Arr products)
  | inl _ => mkResponse 500 (JS.Obj [("error", JS.Str "Failed to load products")])
  end.

(** [mapProduct] throws on [raw]: it is [null], or [Number] throws on its
    price. *)
Definition unmappable (raw : JS.value) : Prop :=
  raw = JS.Null \/ raw = JS.Undefined \/
  exists product_price,
    JS.get raw "product_price" = Some product_price /\
    Number_ (JS.nullish product_price (JS.Num 0)) = None.

(** A candidate path is of no use to the loader: the file cannot be read,
    or its text is not JSON, or it is a JSON array with an element on
    which [mapProduct] throws. *)
Definition candidate_fails (p : string) : Prop :=
  readFile p = None \/
  exists content,
    readFile p = Some content /\
    (JSON_parse content = None \/
     exists xs, JSON_parse content = Some (JS.Arr xs) /\
                exists x, x ∈ xs /\ unmappable x).

End WithRuntime.

End Catalog.

(** ** The relay of [server.js] *)

Module Relay.

(** [WebSocket.CONNECTING], [OPEN], [CLOSING], [CLOSED] *)
Inductive ReadyState := CONNECTING | OPEN | CLOSING | CLOSED.

#[global] Instance ReadyState_eq_dec : EqDecision ReadyState.
Proof. solve_decision. Defined.

Definition rs_eqb (a b : ReadyState) : bool :=
  match a, b with
  | CONNECTING, CONNECTING | OPEN, OPEN | CLOSING, CLOSING | CLOSED, CLOSED => true
  | _, _ => false
  end.

(** An upstream socket object made by [new WebSocket(VMC_WS_URL)]: its
    [readyState] and the frames handed to the wire through it, oldest
    first. *)
Record UpSocket := mkUp { readyState : ReadyState; sent : list string }.

(** A browser connection in [wss.clients].  [c_lossy] says that the
    underlying transport of the client is failing: a frame given to
    [send] is lost.  [inbox] is what the browser received. *)
Record Client := mkClient {
  c_readyState : ReadyState;
  c_lossy : bool;
  inbox : list string
}.

(** The module-level state of the relay.  [sockets] holds every upstream
    socket object constructed so far, in order of construction; a socket is
    identified by its position.  The variable [vmcSocket] holds [null] or a
    reference to one of them.  [timers] counts the pending [setTimeout]
    callbacks of [scheduleVmcReconnect].  [stringified] records the
    arguments of the calls to [JSON.stringify], in order.  What the relay
    writes to the console is left out. *)
Record State := mkState {
  sockets : list UpSocket;
  vmcSocket : option nat;
  vmcConnected : bool;
  vmcReconnectScheduled : bool;
  pendingMessagesQueue : list JS.value;
  timers : nat;
  clients : list Client;
  stringified : list JS.value
}.

Definition set_sockets (f : list UpSocket -> list UpSocket) (s : State) : State :=
  mkState (f (sockets s)) (vmcSocket s) (vmcConnected s) (vmcReconnectScheduled s)
          (pendingMessagesQueue s) (timers s) (clients s) (stringified s).
Definition set_vmcSocket (v : option nat) (s : State) : State :=
  mkState (sockets s) v (vmcConnected s) (vmcReconnectScheduled s)
          (pendingMessagesQueue s) (timers s) (clients s) (stringified s).
Definition set_vmcConnected (b : bool) (s : State) : State :=
  mkState (sockets s) (vmcSocket s) b (vmcReconnectScheduled s)
          (pendingMessagesQueue s) (timers s) (clients s) (stringified s).
Definition set_vmcReconnectScheduled (b : bool) (s : State) : State :=
  mkState (sockets s) (vmcSocket s) (vmcConnected s) b
          (pendingMessagesQueue s) (timers s) (clients s) (stringified s).
Definition set_queue (f : list JS.value -> list JS.value) (s : State) : State :=
  mkState (sockets s) (vmcSocket s) (vmcConnected s) (vmcReconnectScheduled s)
          (f (pendingMessagesQueue s)) (timers s) (clients s) (stringified s).
Definition set_timers (f : nat -> nat) (s : State) : State :=
  mkState (sockets s) (vmcSocket s) (vmcConnected s) (vmcReconnectScheduled s)
          (pendingMessagesQueue s) (f (timers s)) (clients s) (stringified s).
Definition set_clients (f : list Client -> list Client) (s : State) : State :=
  mkState (sockets s) (vmcSocket s) (vmcConnected s) (vmcReconnectScheduled s)
          (pendingMessagesQueue s) (timers s) (f (clients s)) (stringified s).
Definition set_stringified (f : list JS.value -> list JS.value) (s : State) : State :=
  mkState (sockets s) (vmcSocket s) (vmcConnected s) (vmcReconnectScheduled s)
          (pendingMessagesQueue s) (timers s) (clients s) (f (stringified s)).

(** The state when the module has been loaded: [vmcSocket = null],
    [vmcConnected = false], [vmcReconnectScheduled = false],
    [pendingMessagesQueue = []]. *)
Definition initial : State := mkState [] None false false [] 0 [] [].

(** *** Handlers as state transformers that may throw *)

Inductive Outcome (A : Type) : Type :=
| Ok (a : A) (s : State)
| Threw (e : string) (s : State).
Arguments Ok {A} a s.
Arguments Threw {A} e s.

Definition M (A : Type) : Type := State -> Outcome A.

Definition ret {A} (a : A) : M A := fun s => Ok a s.
Definition bind {A B} (m : M A) (k : A -> M B) : M B :=
  fun s => match m s with
           | Ok a s' => k a s'
           | Threw e s' => Threw e s'
           end.
Definition throw {A} (e : string) : M A := fun s => Threw e s.
Definition gets {A} (f : State -> A) : M A := fun s => Ok (f s) s.
Definition modify (f : State -> State) : M unit := fun s => Ok tt (f s).
(** [try { m } catch { }] *)
Definition try_ignore (m : M unit) : M unit :=
  fun s => match m s with
           | Ok a s' => Ok a s'
           | Threw _ s' => Ok tt s'
           end.

Declare Scope relay_scope.
Delimit Scope relay_scope with relay.
Notation "x <- m ;; k" := (bind m (fun x => k))
  (at level 100, m at next level, right associativity) : relay_scope.
Notation "m ;; k" := (bind m (fun _ => k))
  (at level 100, right associativity) : relay_scope.
Local Open Scope relay_scope.

(** [xs.forEach(f)] *)
Fixpoint forEach {A} (xs : list A) (f : A -> M unit) : M unit :=
  match xs with
  | [] => ret tt
  | x :: xs' => f x ;; forEach xs' f
  end.

(** *** The [ws] socket operations the relay calls *)

(** [vmcSocket && vmcSocket.readyState === WebSocket.OPEN] *)
Definition vmcSocketOpen (s : State) : bool :=
  match vmcSocket s with
  | Some i => match sockets s !! i with
              | Some k => rs_eqb (readyState k) OPEN
              | None => false
              end
  | None => false
  end.

(** [vmcSocket = new WebSocket(VMC_WS_URL)]: a fresh socket object, in
    state [CONNECTING], is constructed and the variable now refers to it.
    The object the variable referred to before is neither closed nor
    forgotten by the runtime: it stays in [sockets] with its handlers. *)
Definition newWebSocket : M unit :=
  modify (fun s => set_vmcSocket (Some (length (sockets s)))
                     (set_sockets (fun l => l ++ [mkUp CONNECTING []]) s)).

(** [vmcSocket.send(payload)], as the [ws] package does it: on a socket
    that is still [CONNECTING] it throws; on an [OPEN] socket the frame
    goes to the wire; on a [CLOSING] or [CLOSED] socket, with no callback
    given, the frame is dropped. *)
Definition vmcSocket_send (payload : string) : M unit :=
  fun s =>
    match vmcSocket s with
    | None => Threw "TypeError: Cannot read properties of null (reading 'send')" s
    | Some i =>
        match sockets s !! i with
        | None => Threw "TypeError: Cannot read properties of null (reading 'send')" s
        | Some k =>
            match readyState k with
            | CONNECTING => Threw "WebSocket is not open: readyState 0 (CONNECTING)" s
            | OPEN => Ok tt (set_sockets
                               (fun l => <[i := mkUp OPEN (sent k ++ [payload])]> l) s)
            | CLOSING | CLOSED => Ok tt s
            end
        end
    end.

(** [client.send(payload)] on a browser connection that is [OPEN]: the
    frame is written, and reaches the browser unless the transport of this
    client is failing; such a failure is reported by the [ws] package
    through the callback of [send] (none is given here) and the events of
    that client, never by a [throw]. *)
Definition deliver (payload : string) (c : Client) : Client :=
  if c_lossy c then c
  else mkClient (c_readyState c) (c_lossy c) (inbox c ++ [payload]).

Section WithJSON.

(** [JSON.stringify] and [JSON.parse] belong to the runtime: they are
    parameters.  [JSON_parse] is [None] where [JSON.parse] throws. *)
Variable JSON_stringify : JS.value -> string.
Variable JSON_parse : string -> option JS.value.

Definition stringify (v : JS.value) : M string :=
  fun s => Ok (JSON_stringify v) (set_stringified (fun l => l ++ [v]) s).

(** *** [broadcastToFrontend] (lines 110-117) *)
Definition broadcastToFrontend (messageObj : JS.value) : M unit :=
  payload <- stringify messageObj ;;
  modify (set_clients
            (map (fun client =>
                    if rs_eqb (c_readyState client) OPEN
                    then deliver payload client
                    else client))).

(** *** [ensureVmcConnection] (lines 119-148)

    The four handlers registered with [vmcSocket.on] read and write the
    module-level variables only, never the socket they were registered on:
    every socket made here carries the same four handlers, [onOpen],
    [onMessage], [onClose] and [onError] below. *)
Definition ensureVmcConnection : M unit :=
  fun s =>
    if vmcConnected s && vmcSocketOpen s then Ok tt s
    else newWebSocket s.

(** [scheduleVmcReconnect] (lines 150-157); the callback handed to
    [setTimeout] is [onReconnectTimer]. *)
Definition scheduleVmcReconnect : M unit :=
  fun s =>
    if vmcReconnectScheduled s then Ok tt s
    else Ok tt (set_timers S (set_vmcReconnectScheduled true s)).

Definition onReconnectTimer : M unit :=
  modify (set_vmcReconnectScheduled false) ;;
  ensureVmcConnection.

(** The ['open'] handler (lines 123-130). *)
Definition onOpen : M unit :=
  modify (set_vmcConnected true) ;;
  modify (set_vmcReconnectScheduled false) ;;
  q <- gets pendingMessagesQueue ;;
  forEach q (fun msg => p <- stringify msg ;; vmcSocket_send p) ;;
  modify (set_queue (fun _ => [])).

(** The ['message'] handler (lines 131-138). *)
Definition onMessage (data : string) : M unit :=
  try_ignore
    (fun s => match JSON_parse data with
              | Some parsed => broadcastToFrontend parsed s
              | None => Threw "SyntaxError" s
              end).

(** The ['close'] handler (lines 139-142). *)
Definition onClose : M unit :=
  modify (set_vmcConnected false) ;;
  scheduleVmcReconnect.

(** The ['error'] handler (lines 143-147). *)
Definition onError : M unit :=
  modify (set_vmcConnected false) ;;
  scheduleVmcReconnect.

(** The ['connection'] handler of the browser-facing server (lines
    159-169).  The [ws] package has put the new browser connection, [OPEN],
    into [wss.clients] before the handler runs; [k] is its position. *)
Definition ws_send (k : nat) (payload : string) : M unit :=
  fun s =>
    match clients s !! k with
    | None => Threw "TypeError" s
    | Some c =>
        match c_readyState c with
        | CONNECTING => Threw "WebSocket is not open: readyState 0 (CONNECTING)" s
        | OPEN => Ok tt (set_clients (fun l => <[k := deliver payload c]> l) s)
        | CLOSING | CLOSED => Ok tt s
        end
    end.

Definition statusCommand : JS.value := JS.Obj [("type", JS.Str "status")].

Definition onConnection (k : nat) : M unit :=
  ensureVmcConnection ;;
  o <- gets vmcSocketOpen ;;
  (if o then p <- stringify statusCommand ;; vmcSocket_send p
   else modify (set_queue (fun q => q ++ [statusCommand]))) ;;
  p <- stringify (JS.Obj [("type", JS.Str "backend-status");
                          ("message", JS.Str "connected")]) ;;
  ws_send k p.

(** *** [POST /api/pay] (lines 172-185) *)

(** [Array.isArray(items) ? items : (items ? [items] : [])], as the list
    of the elements of the resulting array. *)
Definition itemArray_of (items : JS.value) : list JS.value :=
  match items with
  | JS.Arr xs => xs
  | _ => if JS.truthy items then [items] else []
  end.

Definition vendCommand (itemArray : list JS.value) : JS.value :=
  JS.Obj [("type", JS.Str "vend"); ("items", JS.Arr itemArray)].

Definition pay (req_body : JS.value) : M Response :=
  match JS.get (JS.or req_body (JS.Obj [])) "items" with
  | None => throw "TypeError"
  | Some items =>
      let itemArray := itemArray_of items in
      if (length itemArray =? 0)%nat
      then ret (mkResponse 400 (JS.Obj [("error", JS.Str "items array required")]))
      else
        ensureVmcConnection ;;
        o <- gets vmcSocketOpen ;;
        (if o then p <- stringify (vendCommand itemArray) ;; vmcSocket_send p
         else modify (set_queue (fun q => q ++ [vendCommand itemArray]))) ;;
        ret (mkResponse 200
               (JS.Obj [("ok", JS.Bool true);
                        ("message", JS.Str "Payment processed, vending requested");
                        ("requestedItems", JS.Arr itemArray)]))
  end.

(** *** The event loop

    What the runtime can deliver to the relay once [server.listen] has
    called back.  An upstream socket emits ['open'] while [CONNECTING] and
    is [OPEN] from then on; it emits ['message'] while [OPEN]; ['error']
    leaves it [CLOSING], and ['close'] leaves it [CLOSED].  When the close
    frame of the peer arrives the socket turns [CLOSING] and emits
    nothing: ['close'] follows once the connection has ended. *)
Inductive Event :=
| Connection                        (* a browser connects *)
| PayRequest (req_body : JS.value)  (* POST /api/pay *)
| UpOpen (i : nat)
| UpMessage (i : nat) (data : string)
| UpError (i : nat)
| UpClose (i : nat)
| ReconnectTimer                    (* a pending setTimeout callback runs *)
| UpClosing (i : nat).              (* the peer's close frame: no handler *)

Definition state_of (i : nat) (s : State) : option ReadyState :=
  readyState <$> sockets s !! i.

Definition enabled (e : Event) (s : State) : bool :=
  match e with
  | Connection | PayRequest _ => true
  | UpOpen i =>
      match state_of i s with Some CONNECTING => true | _ => false end
  | UpMessage i _ =>
      match state_of i s with Some OPEN => true | _ => false end
  | UpError i =>
      match state_of i s with Some CONNECTING | Some OPEN => true | _ => false end
  | UpClose i =>
      match state_of i s with Some CLOSED | None => false | Some _ => true end
  | ReconnectTimer => (0 <? timers s)%nat
  | UpClosing i =>
      match state_of i s with Some OPEN => true | _ => false end
  end.

Definition set_readyState (i : nat) (r : ReadyState) : State -> State :=
  set_sockets (fun l => match l !! i with
                        | Some k => <[i := mkUp r (sent k)]> l
                        | None => l
                        end).

Definition step (e : Event) : M (option Response) :=
  match e with
  | Connection =>
      k <- gets (fun s => length (clients s)) ;;
      modify (set_clients (fun l => l ++ [mkClient OPEN false []])) ;;
      onConnection k ;; ret None
  | PayRequest b => r <- pay b ;; ret (Some r)
  | UpOpen i => modify (set_readyState i OPEN) ;; onOpen ;; ret None
  | UpMessage i data => onMessage data ;; ret None
  | UpError i => modify (set_readyState i CLOSING) ;; onError ;; ret None
  | UpClose i => modify (set_readyState i CLOSED) ;; onClose ;; ret None
  | ReconnectTimer => modify (set_timers pred) ;; onReconnectTimer ;; ret None
  | UpClosing i => modify (set_readyState i CLOSING) ;; ret None
  end.

(** A run of the event loop.  [None]: an event was offered that the
    runtime cannot deliver in that state.  A handler that throws is not
    caught by anything in [server.js]: the run ends there. *)
Fixpoint run (es : list Event) (s : State) : option (Outcome unit) :=
  match es with
  | [] => Some (Ok tt s)
  | e :: es' =>
      if enabled e s then
        match step e s with
        | Ok _ s' => run es' s'
        | Threw x s' => Some (Threw x s')
        end
      else None
  end.

End WithJSON.

(** The callback of [server.listen] (lines 188-193) connects
    proactively. *)
Definition booted : State :=
  match ensureVmcConnection initial with
  | Ok _ s => s
  | Threw _ s => s
  end.

(** *** The vocabulary of the specification, read off the state *)

(** Upstream sockets that are open at the same time. *)
Definition open_sockets (s : State) : nat :=
  length (filter (fun k => readyState k = OPEN) (sockets s)).

(** Connection attempts made so far: one per socket constructed. *)
Definition attempts (s : State) : nat := length (sockets s).

(** [Connected]: the test of line 120. *)
Definition connected (s : State) : bool := vmcConnected s && vmcSocketOpen s.

(** [Connecting]: the socket the variable refers to has not opened yet. *)
Definition connecting (s : State) : bool :=
  match vmcSocket s with
  | Some i => match state_of i s with Some CONNECTING => true | _ => false end
  | None => false
  end.

(** [Disconnected]: there is no socket, or the one the variable refers to
    is closing or closed. *)
Definition disconnected (s : State) : bool :=
  match vmcSocket s with
  | Some i => match state_of i s with
              | Some CLOSING | Some CLOSED => true
              | _ => false
              end
  | None => true
  end.

(** Everything transmitted upstream, socket by socket. *)
Definition transmitted (s : State) : list (list string) := map sent (sockets s).

(** [n] calls in a row. *)
Fixpoint times (n : nat) (m : M unit) : M unit :=
  match n with
  | O => ret tt
  | S n' => m ;; times n' m
  end.

(** The upstream has dropped after having been up, and the reconnect timer
    is armed: the state [booted] reaches by ['open'] then ['close'] of its
    socket. *)
Definition dropped : State :=
  mkState [mkUp CLOSED []] (Some 0) false true [] 1 [] [].

(** The upstream is up: the state [booted] reaches by ['open']. *)
Definition up : State :=
  mkState [mkUp OPEN []] (Some 0) true false [] 0 [] [].

(** The upstream is up and four browsers are registered: the second has
    closed, the transport of the third is failing. *)
Definition three_clients : State :=
  mkState [mkUp OPEN []] (Some 0) true false [] 0
          [mkClient OPEN false []; mkClient CLOSED false []; mkClient OPEN true [];
           mkClient OPEN false []] [].

(** *** What every run of the relay keeps *)

(** The state a handler leaves behind, whether it returned or threw. *)
Definition final {A} (o : Outcome A) : State :=
  match o with
  | Ok _ s => s
  | Threw _ s => s
  end.

(** [vmcSocket] is not [null] and refers to the socket constructed
    last. *)
Definition current_is_newest (s : State) : Prop :=
  sockets s <> [] /\ vmcSocket s = Some (pred (length (sockets s))).

(** When [vmcReconnectScheduled] is set a timeout is pending. *)
Definition armed_has_timer (s : State) : Prop :=
  vmcReconnectScheduled s = true -> 0 < timers s.

(** The socket the variable refers to is [CLOSED]. *)
Definition current_closed (s : State) : bool :=
  match vmcSocket s with
  | Some i => match state_of i s with Some CLOSED => true | _ => false end
  | None => false
  end.

(** When the current socket is closed a timeout is pending. *)
Definition dead_has_timer (s : State) : Prop :=
  current_closed s = true -> 0 < timers s.

Definition well_formed (s : State) : Prop :=
  current_is_newest s /\ armed_has_timer s /\ dead_has_timer s.

(** What the handlers other than ['close'], ['error'] and the timer
    callback leave alone once [ensureVmcConnection] has run: the
    [readyState] of every socket, the variable [vmcSocket], the flag and
    the pending timeouts. *)
Definition same_core (s s' : State) : Prop :=
  map readyState (sockets s) = map readyState (sockets s') /\
  vmcSocket s = vmcSocket s' /\
  vmcReconnectScheduled s = vmcReconnectScheduled s' /\
  timers s = timers s'.

(** A computation keeps the core when the state it leaves has the core of
    the state it started in. *)
Definition keeps_core {A} (m : M A) : Prop :=
  forall s, same_core s (final (m s)).

(** The acknowledgement every new browser is sent (line 168). *)
Definition ack : JS.value :=
  JS.Obj [("type", JS.Str "backend-status"); ("message", JS.Str "connected")].

(** [items] does not pass the test of line 175: it is the empty array, or
    it is not an array and is falsy (absent, [null], [0], [false] or the
    empty string). *)
Definition refused (items : JS.value) : bool :=
  match items with
  | JS.Arr [] => true
  | JS.Arr _ => false
  | _ => negb (JS.truthy items)
  end.

(** A payment request whose [items] is the array [xs]. *)
Definition pay_request (xs : list JS.value) : Event :=
  PayRequest (JS.Obj [("items", JS.Arr xs)]).

End Relay.

(** ** A runtime to run the examples on *)

Module Sample.

Definition quote (s : string) : string :=
  String "034"%char (s ++ String "034"%char "")%string.

Fixpoint commas (l : list string) : string :=
  match l with
  | [] => ""
  | [x] => x
  | x :: l' => (x ++ "," ++ commas l')%string
  end.

(** [JSON.stringify] on values whose strings need no escaping and that
    hold no [undefined]. *)
Fixpoint stringify (v : JS.value) : string :=
  match v with
  | JS.Undefined | JS.Null => "null"
  | JS.Bool true => "true"
  | JS.Bool false => "false"
  | JS.Num n => pretty n
  | JS.Str s => quote s
  | JS.Arr xs => ("[" ++ commas (map stringify xs) ++ "]")%string
  | JS.Obj fs =>
      ("{" ++ commas ((fix fields (l : list (string * JS.value)) : list string :=
                        match l with
                        | [] => []
                        | (k, x) :: l' => (quote k ++ ":" ++ stringify x)%string :: fields l'
                        end) fs) ++ "}")%string
  end.

Definition idle_frame : JS.value :=
  JS.Obj [("type", JS.Str "status"); ("status", JS.Str "idle")].

(** [JSON.parse] on the three texts the examples use: a status frame, an
    array holding [null], and an object that is not an array.  Any other
    text given to it below is not JSON. *)
Definition parse (text : string) : option JS.value :=
  if String.eqb text (stringify idle_frame) then Some idle_frame
  else if String.eqb text "[null]" then Some (JS.Arr [JS.Null])
  else if String.eqb text "{}" then Some (JS.Obj [])
  else None.

(** A deployment in which the first candidate path holds [file] and the
    others do not exist. *)
Definition path_resolve (base rel : string) : string :=
  (base ++ "/" ++ rel)%string.
Definition dirname : string := "/srv/backend/src".
Definition cwd : string := "/srv/backend".
Definition readFile (file : string) (p : string) : option string :=
  if String.eqb p (path_resolve dirname "../data.json") then Some file else None.
(** [Number(x)] on the values the examples give it: a number is itself;
    an object with an own [toString] property, which parsed JSON cannot
    make callable, has no primitive value and [Number] throws. *)
Definition Number_ (v : JS.value) : option JS.value :=
  match v with
  | JS.Obj fs => match JS.assoc "toString" fs with
                 | JS.Undefined => Some JS.Null
                 | _ => None
                 end
  | _ => Some v
  end.

(** A catalog file with one product, and [JSON.parse] on its text. *)
Definition one_product : JS.value :=
  JS.Arr [JS.Obj [("product_id", JS.Num 7); ("product_name", JS.Str "Cola");
                  ("product_price", JS.Num 40);
                  ("image", JS.Str "http://img/cola.png")]].
Definition parse_catalog (text : string) : option JS.value :=
  if String.eqb text (stringify one_product) then Some one_product else None.

End Sample.

(** ** The vend state machine of the [Products] page ([App.tsx]) *)

Module Client.

Inductive Stage := idle | vending | complete.

#[global] Instance Stage_eq_dec : EqDecision Stage.
Proof. solve_decision. Defined.

(** The [modal] state (line 40). *)
Record Modal := mkModal { open : bool; stage : Stage; text : string }.

(** The two callbacks handed to [window.setTimeout]:
    [() => setModal({ open: false, stage: 'idle', text: '' })] (line 78)
    and [() => setActiveMessage('')] (line 96). *)
Inductive Callback := CloseModal | ClearToast.

#[global] Instance Callback_eq_dec : EqDecision Callback.
Proof. solve_decision. Defined.

Record Timer := mkTimer { id : nat; due : N; callback : Callback }.

(** The React state and refs of the component, the pending timers of the
    window and its clock (in ms).  [shown] records every value given to
    [setActiveMessage] and [toasts] every text given to [showToast],
    oldest first. *)
Record UI := mkUI {
  activeMessage : JS.value;
  isVending : bool;
  modal : Modal;
  toastTimeoutRef : option nat;
  modalTimerRef : option nat;
  timers : list Timer;
  now : N;
  next_id : nat;
  shown : list JS.value;
  toasts : list JS.value
}.

(** The first render: the initial values of [useState] and [useRef]
    (lines 36-41). Timer identifiers of a window are positive. *)
Definition modal_initial : Modal := mkModal false idle "".
Definition mounted : UI :=
  mkUI (JS.Str "") false modal_initial None None [] 0%N 1 [] [].

Definition setActiveMessage (v : JS.value) (u : UI) : UI :=
  mkUI v (isVending u) (modal u) (toastTimeoutRef u) (modalTimerRef u)
       (timers u) (now u) (next_id u) (shown u ++ [v]) (toasts u).
Definition setIsVending (b : bool) (u : UI) : UI :=
  mkUI (activeMessage u) b (modal u) (toastTimeoutRef u) (modalTimerRef u)
       (timers u) (now u) (next_id u) (shown u) (toasts u).
(** [setModal(f)]: the updater receives the current state. *)
Definition setModal (f : Modal -> Modal) (u : UI) : UI :=
  mkUI (activeMessage u) (isVending u) (f (modal u)) (toastTimeoutRef u)
       (modalTimerRef u) (timers u) (now u) (next_id u) (shown u) (toasts u).

(** [window.clearTimeout(i)] *)
Definition clearTimeout (i : nat) (u : UI) : UI :=
  mkUI (activeMessage u) (isVending u) (modal u) (toastTimeoutRef u)
       (modalTimerRef u) (filter (fun t => id t ≠ i) (timers u))
       (now u) (next_id u) (shown u) (toasts u).

(** [window.setTimeout(cb, ms)]: the new identifier and the new state. *)
Definition setTimeout (cb : Callback) (ms : N) (u : UI) : nat * UI :=
  (next_id u,
   mkUI (activeMessage u) (isVending u) (modal u) (toastTimeoutRef u)
        (modalTimerRef u) (timers u ++ [mkTimer (next_id u) (now u + ms)%N cb])
        (now u) (S (next_id u)) (shown u) (toasts u)).

Definition set_toastTimeoutRef (r : option nat) (u : UI) : UI :=
  mkUI (activeMessage u) (isVending u) (modal u) r (modalTimerRef u)
       (timers u) (now u) (next_id u) (shown u) (toasts u).
Definition set_modalTimerRef (r : option nat) (u : UI) : UI :=
  mkUI (activeMessage u) (isVending u) (modal u) (toastTimeoutRef u) r
       (timers u) (now u) (next_id u) (shown u) (toasts u).
Definition log_toast (v : JS.value) (u : UI) : UI :=
  mkUI (activeMessage u) (isVending u) (modal u) (toastTimeoutRef u)
       (modalTimerRef u) (timers u) (now u) (next_id u) (shown u)
       (toasts u ++ [v]).

(** [showToast] (lines 91-97) *)
Definition showToast (text : JS.value) (u : UI) : UI :=
  let u := setActiveMessage text (log_toast text u) in
  let u := match toastTimeoutRef u with
           | Some i => clearTimeout i u
           | None => u
           end in
  let '(i, u) := setTimeout ClearToast 2500%N u in
  set_toastTimeoutRef (Some i) u.

(** The callback given to [connectBackendWS] (lines 51-82), as a function
    of the constant [modal] of the render whose effect created it.  A
    property read throws exactly when [msg] is [null], and then the first
    one, of [msg.type], does, before any state is set; [connectBackendWS]
    wraps the call in [try { } catch { }] ([websocket.ts], lines 13-18),
    so the message is then ignored. *)
Definition wsCallback (modal_of_render : Modal) (msg : JS.value) (u : UI) : UI :=
  match JS.get msg "type", JS.get msg "status",
        JS.get msg "message", JS.get msg "success" with
  | Some type, Some status, Some message, Some success =>
      if JS.is_str type "status" then
        if JS.is_str status "vending" then
          let u := setIsVending true u in
          let u := setActiveMessage (JS.nullish message (JS.Str "Vending started")) u in
          setModal (fun _ => mkModal true vending "Vending in progress…") u
        else
          let u := setIsVending false u in
          let u := setActiveMessage (JS.Str "") u in
          if bool_decide (stage modal_of_render ≠ complete)
          then setModal (fun m => mkModal false idle "") u
          else u
      else if JS.is_str type "vend-response" then
        if JS.truthy success then
          let u := setIsVending true u in
          let u := setActiveMessage (JS.Str "Vending started") u in
          setModal (fun _ => mkModal true vending "Vending started…") u
        else
          let u := setIsVending false u in
          showToast (JS.or message (JS.Str "Machine busy")) u
      else if JS.is_str type "vend-complete" then
        let u := setIsVending false u in
        let u := setModal (fun _ => mkModal true complete "Vending complete! 🎉") u in
        let u := match modalTimerRef u with
                 | Some i => clearTimeout i u
                 | None => u
                 end in
        let '(i, u) := setTimeout CloseModal 1500%N u in
        let u := set_modalTimerRef (Some i) u in
        showToast (JS.Str "Vending complete") u
      else u
  | _, _, _, _ => u
  end.

(** The effect that installs the callback has the dependency list [[]]
    (line 89): React runs it once, after the first render.  The [modal]
    the callback reads at line 60 is therefore the constant of the first
    render, the initial state of line 40, whatever [setModal] has stored
    since. *)
Definition onMessage : JS.value -> UI -> UI := wsCallback modal_initial.

(** A timer callback runs. *)
Definition fire (t : Timer) (u : UI) : UI :=
  let u := clearTimeout (id t) u in
  match callback t with
  | CloseModal => setModal (fun _ => mkModal false idle "") u
  | ClearToast => setActiveMessage (JS.Str "") u
  end.

(** Timers that are due run in order of due time, and in order of
    creation among equals. *)
Fixpoint insert_by_due (t : Timer) (l : list Timer) : list Timer :=
  match l with
  | [] => [t]
  | t' :: l' => if (due t' <=? due t)%N then t' :: insert_by_due t l'
                else t :: l
  end.
Definition by_due (l : list Timer) : list Timer :=
  fold_left (fun acc t => insert_by_due t acc) l [].

Definition set_now (n : N) (u : UI) : UI :=
  mkUI (activeMessage u) (isVending u) (modal u) (toastTimeoutRef u)
       (modalTimerRef u) (timers u) n (next_id u) (shown u) (toasts u).

(** [ms] milliseconds pass with no message.  No callback of this page
    creates a timer, so the timers due within the interval are those
    pending at its start. *)
Definition elapse (ms : N) (u : UI) : UI :=
  let deadline := (now u + ms)%N in
  let ready := by_due (filter (fun t => (due t ≤ deadline)%N) (timers u)) in
  set_now deadline (fold_left (fun u t => fire t u) ready u).

Inductive Input :=
| Recv (msg : JS.value)   (* a frame of the relay, parsed *)
| Wait (ms : N).

Definition react (i : Input) (u : UI) : UI :=
  match i with
  | Recv msg => onMessage msg u
  | Wait ms => elapse ms u
  end.

(** The stage of the overlay after each input, the starting one first. *)
Fixpoint phases (inputs : list Input) (u : UI) : list Stage :=
  stage (modal u) ::
  match inputs with
  | [] => []
  | i :: inputs' => phases inputs' (react i u)
  end.

(** The state after a list of inputs. *)
Definition run (inputs : list Input) (u : UI) : UI :=
  fold_left (fun u i => react i u) inputs u.

(** The frames of the relay: any object whose [type] (and [status]) are
    as named, whatever its other properties. *)
Definition status_frame (status : string) (more : list (string * JS.value))
  : JS.value :=
  JS.Obj (("type", JS.Str "status") :: ("status", JS.Str status) :: more).
Definition vend_complete_frame (more : list (string * JS.value)) : JS.value :=
  JS.Obj (("type", JS.Str "vend-complete") :: more).

Definition vend_response_frame (success : JS.value)
  (more : list (string * JS.value)) : JS.value :=
  JS.Obj (("type", JS.Str "vend-response") :: ("success", success) :: more).

(** *** [connectBackendWS] ([websocket.ts], lines 8-21) *)

(** [s.replace(pat, rep)] with a string pattern and a replacement that
    holds no [$]: the first occurrence of [pat] is replaced. *)
Fixpoint replace_first (pat rep s : string) : string :=
  match s with
  | EmptyString => if String.prefix pat s then rep else s
  | String c s' =>
      if String.prefix pat s
      then (rep ++ String.substring (String.length pat)
                     (String.length s - String.length pat) s)%string
      else String c (replace_first pat rep s')
  end.

(** [(import.meta.env.VITE_API_BASE || 'http://localhost:3001')
      .replace('http', 'ws')]; the variable is a string or is not set. *)
Definition backend_ws_url (VITE_API_BASE : option string) : string :=
  replace_first "http" "ws"
    (match VITE_API_BASE with
     | Some base => if String.eqb base "" then "http://localhost:3001" else base
     | None => "http://localhost:3001"
     end).

(** The ['message'] listener (lines 12-19): a frame that [JSON.parse]
    rejects is ignored. *)
Definition listener (JSON_parse : string -> option JS.value)
  (data : string) (u : UI) : UI :=
  match JSON_parse data with
  | Some msg => onMessage msg u
  | None => u
  end.

(** *** What every run of the page keeps *)

(** Every pending dismiss timer is the one [modalTimerRef] holds, every
    pending toast timer the one [toastTimeoutRef] holds, and timer
    identifiers are handed out once: those in use are below [next_id], a
    ref holds the identifier of a timer of its own kind, and no two
    pending timers share one. *)
Definition timers_tracked (u : UI) : Prop :=
  (forall t, t ∈ timers u -> callback t = CloseModal ->
             modalTimerRef u = Some (id t)) /\
  (forall t, t ∈ timers u -> callback t = ClearToast ->
             toastTimeoutRef u = Some (id t)) /\
  (forall t, t ∈ timers u -> id t < next_id u) /\
  (forall i, modalTimerRef u = Some i -> i < next_id u) /\
  (forall i, toastTimeoutRef u = Some i -> i < next_id u) /\
  (forall t, t ∈ timers u -> modalTimerRef u = Some (id t) ->
             callback t = CloseModal) /\
  (forall t, t ∈ timers u -> toastTimeoutRef u = Some (id t) ->
             callback t = ClearToast) /\
  NoDup (map id (timers u)).

(** A frame the callback acts on: its [type] is one of the three it
    tests for. *)
Definition recognized (msg : JS.value) : bool :=
  match JS.get msg "type" with
  | Some type => JS.is_str type "status" || JS.is_str type "vend-response"
                 || JS.is_str type "vend-complete"
  | None => false
  end.

End Client.

(** * Properties of the relay *)

Section RelayFacts.

Import Relay.
Local Open Scope relay_scope.

Variable JSON_stringify : JS.value -> string.
Variable JSON_parse : string -> option JS.value.

#[local] Abbreviation run := (Relay.run JSON_stringify JSON_parse).
#[local] Abbreviation step := (Relay.step JSON_stringify JSON_parse).
#[local] Abbreviation stringify := (Relay.stringify JSON_stringify).

(** ** [ensureVmcConnection] *)

Lemma ensure_when_connected (s : State) :
  connected s = true -> ensureVmcConnection s = Ok tt s.
Proof. unfold ensureVmcConnection, connected. intros ->. reflexivity. Qed.

Lemma ensure_when_not_connected (s : State) :
  connected s = false -> ensureVmcConnection s = newWebSocket s.
Proof. unfold ensureVmcConnection, connected. intros ->. reflexivity. Qed.

Lemma disconnected_not_open (s : State) :
  disconnected s = true -> vmcSocketOpen s = false.
Proof.
  unfold disconnected, vmcSocketOpen, state_of.
  destruct (vmcSocket s) as [i|]; [|reflexivity].
  destruct (sockets s !! i) as [[[] ?]|]; simpl; congruence.
Qed.

Lemma disconnected_not_connected (s : State) :
  disconnected s = true -> connected s = false.
Proof.
  intros H. unfold connected. rewrite (disconnected_not_open s H).
  apply andb_false_r.
Qed.

Lemma connecting_not_connected (s : State) :
  connecting s = true -> connected s = false.
Proof.
  unfold connecting, connected, vmcSocketOpen, state_of.
  destruct (vmcSocket s) as [i|]; [|intros _; apply andb_false_r].
  destruct (sockets s !! i) as [[[] ?]|]; simpl; try congruence;
    intros _; apply andb_false_r.
Qed.

Lemma times_ensure_connected (s : State) (n : nat) :
  connected s = true -> times n ensureVmcConnection s = Ok tt s.
Proof.
  intros H. induction n as [|n IH]; [reflexivity|].
  simpl. unfold bind. rewrite (ensure_when_connected s H). exact IH.
Qed.

(** The states [dropped] and [up] are states of the running relay. *)
Lemma dropped_reached :
  run [UpOpen 0; UpClose 0] booted = Some (Ok tt dropped).
Proof. reflexivity. Qed.

Lemma up_reached : run [UpOpen 0] booted = Some (Ok tt up).
Proof. reflexivity. Qed.

(** C1, as amended.  [ensureVmcConnection] does nothing when the upstream
    is connected (the flag is set and the current socket is open): any
    number of calls in a row leaves the whole state as it was, so no
    connection attempt is added and the open sockets are the same.  When
    the upstream is disconnected (no current socket, or a closing or closed
    one) one call opens exactly one new attempt and makes it the current
    socket, whether or not a reconnect timer is armed; nothing else
    changes. *)
Theorem ensureVmcConnection_contract (s : State) :
  (connected s = true ->
   forall n, times n ensureVmcConnection s = Ok tt s) /\
  (disconnected s = true ->
   ensureVmcConnection s =
   Ok tt (mkState (sockets s ++ [mkUp CONNECTING []])
                  (Some (length (sockets s)))
                  (vmcConnected s) (vmcReconnectScheduled s)
                  (pendingMessagesQueue s) (timers s) (clients s)
                  (stringified s))).
Proof.
  split.
  - intros H n. apply times_ensure_connected, H.
  - intros H.
    rewrite (ensure_when_not_connected s (disconnected_not_connected s H)).
    reflexivity.
Qed.

Lemma ensureVmcConnection_contract_witness :
  times 3 ensureVmcConnection up = Ok tt up /\
  ensureVmcConnection dropped =
  Ok tt (mkState [mkUp CLOSED []; mkUp CONNECTING []] (Some 1)
                 false true [] 1 [] []).
Proof.
  split.
  - exact (proj1 (ensureVmcConnection_contract up) eq_refl 3).
  - exact (proj2 (ensureVmcConnection_contract dropped) eq_refl).
Defined.

(** C1 as it is written fails: with the reconnect timer armed (and the
    upstream not connected) a call is not a no-op, it opens a second
    attempt. *)
Lemma ensureVmcConnection_ignores_armed_timer :
  vmcReconnectScheduled dropped = true /\
  timers dropped = 1 /\
  attempts dropped = 1 /\
  ensureVmcConnection dropped <> Ok tt dropped /\
  exists s', ensureVmcConnection dropped = Ok tt s' /\ attempts s' = 2.
Proof.
  split; [reflexivity|]. split; [reflexivity|]. split; [reflexivity|].
  split; [discriminate|]. eexists. split; reflexivity.
Qed.

(** ** One upstream socket, one reconnect timer *)

(** While the current socket is still connecting, a call constructs
    another socket; the former one stays alive with its handlers. *)
Lemma ensure_while_connecting (s : State) :
  connecting s = true ->
  exists s', ensureVmcConnection s = Ok tt s' /\
             sockets s' = sockets s ++ [mkUp CONNECTING []] /\
             vmcSocket s' = Some (length (sockets s)).
Proof.
  intros H. rewrite (ensure_when_not_connected s (connecting_not_connected s H)).
  eexists. split; [reflexivity|]. split; reflexivity.
Qed.

(** C2 fails on the code.  A browser that connects while the first socket
    is still connecting makes [ensureVmcConnection] construct a second one,
    and both open: two upstream sockets are open together.  And a socket
    that opens clears [vmcReconnectScheduled] without cancelling the
    pending timer, so when that socket closes a second timer is armed
    while the first is still pending. *)
Theorem two_open_sockets_two_armed_timers :
  (exists s, run [Connection; UpOpen 1; UpOpen 0] booted = Some (Ok tt s) /\
             open_sockets s = 2) /\
  (exists s, run [UpOpen 0; UpClose 0; Connection; UpOpen 1; UpClose 1] booted
             = Some (Ok tt s) /\
             timers s = 2).
Proof. split; eexists; split; vm_compute; reflexivity. Qed.

(** ** The flush of the queue on ['open'] *)

Lemma send_on_open_socket (s : State) (i : nat) (old : list string) (m : JS.value) :
  vmcSocket s = Some i ->
  sockets s !! i = Some (mkUp OPEN old) ->
  (p <- stringify m ;; vmcSocket_send p) s =
  Ok tt (mkState (<[i := mkUp OPEN (old ++ [JSON_stringify m])]> (sockets s))
                 (vmcSocket s) (vmcConnected s) (vmcReconnectScheduled s)
                 (pendingMessagesQueue s) (timers s) (clients s)
                 (stringified s ++ [m])).
Proof.
  intros Hv Hi. unfold bind, Relay.stringify, vmcSocket_send.
  destruct s; simpl in Hv, Hi |- *; subst. rewrite Hi. reflexivity.
Qed.

Lemma forEach_send_on_open_socket (q : list JS.value) :
  forall (s : State) (i : nat) (old : list string),
    vmcSocket s = Some i ->
    sockets s !! i = Some (mkUp OPEN old) ->
    forEach q (fun msg => p <- stringify msg ;; vmcSocket_send p) s =
    Ok tt (mkState (<[i := mkUp OPEN (old ++ map JSON_stringify q)]> (sockets s))
                   (vmcSocket s) (vmcConnected s) (vmcReconnectScheduled s)
                   (pendingMessagesQueue s) (timers s) (clients s)
                   (stringified s ++ q)).
Proof.
  induction q as [|m q IH]; intros s i old Hv Hi.
  - simpl. unfold ret. rewrite !app_nil_r.
    rewrite (list_insert_id _ _ _ Hi). destruct s; reflexivity.
  - cbn [forEach]. unfold bind at 1.
    rewrite (send_on_open_socket s i old m Hv Hi).
    rewrite (IH _ i (old ++ [JSON_stringify m])); cbn [vmcSocket sockets].
    + cbn. rewrite list_insert_insert_eq. rewrite <- !app_assoc. reflexivity.
    + exact Hv.
    + apply list_lookup_insert_eq. eapply lookup_lt_Some, Hi.
Qed.

(** When the socket that opens is the one [vmcSocket] refers to, the
    queue goes out on it whole, oldest first, each command stringified
    and sent once, and is left empty. *)
Lemma open_of_current_socket_flushes (s : State) (i : nat) (old : list string) :
  vmcSocket s = Some i ->
  sockets s !! i = Some (mkUp CONNECTING old) ->
  enabled (UpOpen i) s = true /\
  step (UpOpen i) s =
  Ok None (mkState (<[i := mkUp OPEN (old ++ map JSON_stringify
                                             (pendingMessagesQueue s))]>
                      (sockets s))
                   (Some i) true false [] (timers s) (clients s)
                   (stringified s ++ pendingMessagesQueue s)).
Proof.
  intros Hv Hi.
  assert (Hlt : i < length (sockets s)) by (eapply lookup_lt_Some, Hi).
  split.
  - unfold enabled, state_of. rewrite Hi. reflexivity.
  - unfold Relay.step, onOpen.
    unfold bind at 1. unfold modify at 1.
    unfold bind at 1. unfold bind at 1. unfold modify at 1.
    unfold bind at 1. unfold modify at 1.
    unfold bind at 1. unfold gets.
    unfold bind at 1.
    rewrite (forEach_send_on_open_socket _ _ i old).
    + cbn. rewrite Hi. rewrite list_insert_insert_eq. rewrite Hv. reflexivity.
    + exact Hv.
    + cbn. rewrite Hi. apply list_lookup_insert_eq. exact Hlt.
Qed.

(** C3 fails on the code.  A command is queued while the upstream is not
    connected (a browser connects, or a payment arrives, before the first
    socket has opened): the handler has called [ensureVmcConnection],
    which replaced [vmcSocket] by a new socket.  When the first socket then
    opens, the upstream becomes connected and the flush sends on
    [vmcSocket], the newer socket that is still connecting: [send] throws,
    nothing is transmitted on any socket and the queue keeps its
    command. *)
Theorem flush_on_stale_open_transmits_nothing :
  (exists x s,
      run [Connection; UpOpen 0] booted = Some (Threw x s) /\
      vmcConnected s = true /\
      pendingMessagesQueue s = [statusCommand] /\
      transmitted s = [[]; []]) /\
  (exists x s,
      run [PayRequest (JS.Obj [("items", JS.Arr [JS.Num 7])]); UpOpen 0] booted
      = Some (Threw x s) /\
      vmcConnected s = true /\
      pendingMessagesQueue s = [vendCommand [JS.Num 7]] /\
      transmitted s = [[]; []]).
Proof. split; do 2 eexists; (split; [vm_compute; reflexivity|]); repeat split. Qed.

(** ** [POST /api/pay] *)

Lemma get_defined_is_object (v x : JS.value) (k : string) :
  JS.get v k = Some x -> x <> JS.Undefined -> JS.or v (JS.Obj []) = v.
Proof.
  destruct v; simpl; intros H Hx; try discriminate;
    try (injection H as <-; contradiction); reflexivity.
Qed.

Lemma fresh_socket_not_open (s s' : State) :
  newWebSocket s = Ok tt s' -> vmcSocketOpen s' = false.
Proof.
  unfold newWebSocket, modify. intros [= <-].
  unfold vmcSocketOpen. cbn.
  rewrite lookup_app_r by lia. rewrite Nat.sub_diag. reflexivity.
Qed.

Lemma connected_socket_open (s : State) :
  connected s = true ->
  exists i old, vmcSocket s = Some i /\ sockets s !! i = Some (mkUp OPEN old).
Proof.
  unfold connected, vmcSocketOpen. intros [_ H]%andb_true_iff.
  destruct (vmcSocket s) as [i|]; [|discriminate].
  destruct (sockets s !! i) as [[r old]|] eqn:E; [|discriminate].
  destruct r; try discriminate. eauto.
Qed.

(** What the handler does once the item list has passed the test of line
    175: not connected, the command is queued behind a fresh attempt;
    connected, it is sent on the open socket. *)
Lemma pay_accepts (s : State) (req_body items : JS.value) :
  JS.get req_body "items" = Some items ->
  itemArray_of items <> [] ->
  let ok := mkResponse 200
              (JS.Obj [("ok", JS.Bool true);
                       ("message", JS.Str "Payment processed, vending requested");
                       ("requestedItems", JS.Arr (itemArray_of items))]) in
  let cmd := vendCommand (itemArray_of items) in
  (connected s = false ->
   pay JSON_stringify req_body s =
   Ok ok (mkState (sockets s ++ [mkUp CONNECTING []])
                  (Some (length (sockets s)))
                  (vmcConnected s) (vmcReconnectScheduled s)
                  (pendingMessagesQueue s ++ [cmd])
                  (timers s) (clients s) (stringified s))) /\
  (forall i old,
      connected s = true -> vmcSocket s = Some i ->
      sockets s !! i = Some (mkUp OPEN old) ->
      pay JSON_stringify req_body s =
      Ok ok (mkState (<[i := mkUp OPEN (old ++ [JSON_stringify cmd])]> (sockets s))
                     (vmcSocket s) (vmcConnected s) (vmcReconnectScheduled s)
                     (pendingMessagesQueue s)
                     (timers s) (clients s) (stringified s ++ [cmd]))).
Proof using JSON_stringify.
  intros Hget Hne ok cmd.
  assert (Hitems : items <> JS.Undefined).
  { intros ->. apply Hne. reflexivity. }
  assert (Hlen : (length (itemArray_of items) =? 0)%nat = false).
  { destruct (itemArray_of items); [contradiction|reflexivity]. }
  unfold pay. rewrite (get_defined_is_object _ _ _ Hget Hitems), Hget.
  cbv zeta. rewrite Hlen. split.
  - intros Hc. unfold bind at 1.
    rewrite (ensure_when_not_connected s Hc).
    pose proof (fresh_socket_not_open s _ eq_refl) as Hno.
    unfold newWebSocket, modify in Hno |- *.
    unfold bind at 1. unfold gets. rewrite Hno. reflexivity.
  - intros i old Hc Hv Hi. unfold bind at 1.
    rewrite (ensure_when_connected s Hc).
    unfold bind at 1. unfold gets.
    assert (Ho : vmcSocketOpen s = true).
    { unfold connected in Hc. apply andb_true_iff in Hc. exact (proj2 Hc). }
    rewrite Ho. unfold bind at 1.
    rewrite (send_on_open_socket s i old _ Hv Hi). reflexivity.
Qed.

(** C6.  A request whose [items] is the empty array is answered 400 with
    an error body, and the relay state is left exactly as it was: no
    connection attempt, nothing queued, nothing stringified or sent.  A
    request whose [items] is a non-empty array, arriving while the
    upstream is not connected, appends exactly one vend command carrying
    those items to the queue, sends nothing, and is answered 200 with the
    acceptance body at once. *)
Theorem pay_rejects_empty_queues_nonempty (s : State) (req_body : JS.value) :
  (JS.get req_body "items" = Some (JS.Arr []) ->
   pay JSON_stringify req_body s =
   Ok (mkResponse 400 (JS.Obj [("error", JS.Str "items array required")])) s) /\
  (forall x xs,
      JS.get req_body "items" = Some (JS.Arr (x :: xs)) ->
      connected s = false ->
      exists s',
        pay JSON_stringify req_body s =
        Ok (mkResponse 200
              (JS.Obj [("ok", JS.Bool true);
                       ("message", JS.Str "Payment processed, vending requested");
                       ("requestedItems", JS.Arr (x :: xs))])) s' /\
        pendingMessagesQueue s' =
          pendingMessagesQueue s ++
          [JS.Obj [("type", JS.Str "vend"); ("items", JS.Arr (x :: xs))]] /\
        transmitted s' = transmitted s ++ [[]] /\
        stringified s' = stringified s /\
        clients s' = clients s).
Proof using JSON_stringify.
  split.
  - intros Hget. unfold pay.
    rewrite (get_defined_is_object _ _ _ Hget) by discriminate.
    rewrite Hget. reflexivity.
  - intros x xs Hget Hc.
    destruct (pay_accepts s req_body (JS.Arr (x :: xs)) Hget) as [H _];
      [discriminate|].
    eexists. split; [exact (H Hc)|].
    cbn. unfold transmitted. cbn. rewrite map_app. repeat split.
Qed.

(** C9.  An [items] that is not an array but is truthy (the number 7,
    say) is not refused: the handler wraps it in a one-element array,
    answers 200 with [requestedItems] that array, and the vend command for
    it is queued when the upstream is not connected and sent on the open
    socket when it is. *)
Theorem pay_wraps_single_item (s : State) (req_body items : JS.value) :
  JS.get req_body "items" = Some items ->
  JS.isArray items = false ->
  JS.truthy items = true ->
  exists s',
    pay JSON_stringify req_body s =
    Ok (mkResponse 200
          (JS.Obj [("ok", JS.Bool true);
                   ("message", JS.Str "Payment processed, vending requested");
                   ("requestedItems", JS.Arr [items])])) s' /\
    let cmd := JS.Obj [("type", JS.Str "vend"); ("items", JS.Arr [items])] in
    (connected s = false ->
     pendingMessagesQueue s' = pendingMessagesQueue s ++ [cmd] /\
     stringified s' = stringified s) /\
    (connected s = true ->
     pendingMessagesQueue s' = pendingMessagesQueue s /\
     stringified s' = stringified s ++ [cmd] /\
     exists i old,
       vmcSocket s = Some i /\ sockets s !! i = Some (mkUp OPEN old) /\
       sockets s' !! i = Some (mkUp OPEN (old ++ [JSON_stringify cmd]))).
Proof using JSON_stringify.
  intros Hget Harr Htruthy.
  assert (Hwrap : itemArray_of items = [items]).
  { unfold itemArray_of. destruct items; try discriminate;
      simpl in Htruthy |- *; rewrite ?Htruthy; reflexivity. }
  pose proof (pay_accepts s req_body items Hget) as H.
  rewrite Hwrap in H. specialize (H ltac:(discriminate)).
  cbv zeta in H. destruct H as [Hq Hs].
  destruct (connected s) eqn:Hc.
  - destruct (connected_socket_open s Hc) as (i & old & Hv & Hi).
    eexists. split; [exact (Hs i old eq_refl Hv Hi)|].
    cbv zeta. split; [discriminate|]. intros _. cbn.
    repeat split. exists i, old. repeat split; try assumption.
    apply list_lookup_insert_eq. eapply lookup_lt_Some, Hi.
  - eexists. split; [exact (Hq eq_refl)|].
    cbv zeta. split; [|discriminate]. intros _. cbn. split; reflexivity.
Qed.

(** ** [broadcastToFrontend] and the ['message'] handler *)

Lemma broadcast_result (messageObj : JS.value) (s : State) :
  broadcastToFrontend JSON_stringify messageObj s =
  Ok tt (mkState (sockets s) (vmcSocket s) (vmcConnected s)
                 (vmcReconnectScheduled s) (pendingMessagesQueue s) (timers s)
                 (map (fun client =>
                         if rs_eqb (c_readyState client) OPEN
                         then deliver (JSON_stringify messageObj) client
                         else client) (clients s))
                 (stringified s ++ [messageObj])).
Proof using. reflexivity. Qed.

(** C7.  [broadcastToFrontend] never throws.  It stringifies the event
    once.  Client by client, whatever the other clients are: an open
    client whose transport works receives the payload, once, after what it
    had received; a client that is not open is skipped and left as it was;
    an open client whose transport fails receives nothing, and that
    changes nothing for the others.  The set of clients and the rest of
    the relay state are unchanged. *)
Theorem broadcast_reaches_every_writable_client (messageObj : JS.value) (s : State) :
  exists s',
    broadcastToFrontend JSON_stringify messageObj s = Ok tt s' /\
    stringified s' = stringified s ++ [messageObj] /\
    length (clients s') = length (clients s) /\
    (forall k c,
        clients s !! k = Some c ->
        (c_readyState c = OPEN -> c_lossy c = false ->
         clients s' !! k =
         Some (mkClient OPEN false (inbox c ++ [JSON_stringify messageObj]))) /\
        (c_readyState c <> OPEN -> clients s' !! k = Some c) /\
        (c_lossy c = true -> clients s' !! k = Some c)) /\
    sockets s' = sockets s /\
    pendingMessagesQueue s' = pendingMessagesQueue s.
Proof using.
  eexists. split; [apply broadcast_result|]. cbn.
  split; [reflexivity|]. split; [apply length_map|].
  split; [|split; reflexivity].
  intros k c Hk. rewrite list_lookup_fmap, Hk. cbn.
  destruct c as [r lossy box]; cbn. repeat split.
  - intros -> ->. reflexivity.
  - intros Hr. destruct r; try reflexivity. contradiction.
  - intros ->. unfold deliver. cbn. destruct (rs_eqb r OPEN); reflexivity.
Qed.

Lemma onMessage_result (data : string) (s : State) :
  onMessage JSON_stringify JSON_parse data s =
  match JSON_parse data with
  | Some parsed => broadcastToFrontend JSON_stringify parsed s
  | None => Ok tt s
  end.
Proof using.
  unfold onMessage, try_ignore. destruct (JSON_parse data) as [parsed|].
  - rewrite broadcast_result. reflexivity.
  - reflexivity.
Qed.

(** C8.  The ['message'] handler never throws, for any frame on any open
    upstream socket.  A frame that does not parse leaves the whole relay
    state as it was: nothing is stringified, no client receives anything.
    A frame that parses is broadcast.  So whenever the handler changed
    anything, the frame had parsed. *)
Theorem unparsable_frame_is_dropped (i : nat) (data : string) (s : State) :
  exists s',
    step (UpMessage i data) s = Ok None s' /\
    (JSON_parse data = None -> s' = s) /\
    (forall parsed,
        JSON_parse data = Some parsed ->
        broadcastToFrontend JSON_stringify parsed s = Ok tt s') /\
    (s' <> s -> exists parsed, JSON_parse data = Some parsed).
Proof using.
  unfold Relay.step. unfold bind at 1. rewrite onMessage_result.
  destruct (JSON_parse data) as [parsed|] eqn:E.
  - rewrite broadcast_result. eexists. split; [reflexivity|].
    split; [discriminate|]. split.
    + intros ? [= <-]. apply broadcast_result.
    + intros _. eauto.
  - exists s. split; [reflexivity|]. split; [reflexivity|].
    split; [discriminate|]. intros H. contradiction.
Qed.

End RelayFacts.

(** ** The statements above at concrete requests *)

Section RelayExamples.

Import Relay.

Lemma pay_rejects_empty_queues_nonempty_witness :
  pay Sample.stringify (JS.Obj [("items", JS.Arr [])]) dropped =
  Ok (mkResponse 400 (JS.Obj [("error", JS.Str "items array required")])) dropped /\
  exists s',
    pay Sample.stringify (JS.Obj [("items", JS.Arr [JS.Num 7])]) dropped =
    Ok (mkResponse 200
          (JS.Obj [("ok", JS.Bool true);
                   ("message", JS.Str "Payment processed, vending requested");
                   ("requestedItems", JS.Arr [JS.Num 7])])) s' /\
    pendingMessagesQueue s' =
      [JS.Obj [("type", JS.Str "vend"); ("items", JS.Arr [JS.Num 7])]] /\
    transmitted s' = [[]; []] /\
    stringified s' = [] /\
    clients s' = [].
Proof.
  split.
  - exact (proj1 (pay_rejects_empty_queues_nonempty Sample.stringify
                    dropped (JS.Obj [("items", JS.Arr [])])) eq_refl).
  - exact (proj2 (pay_rejects_empty_queues_nonempty Sample.stringify
                    dropped (JS.Obj [("items", JS.Arr [JS.Num 7])]))
                 (JS.Num 7) [] eq_refl eq_refl).
Defined.

Lemma pay_wraps_single_item_witness :
  exists s',
    pay Sample.stringify (JS.Obj [("items", JS.Num 7)]) up =
    Ok (mkResponse 200
          (JS.Obj [("ok", JS.Bool true);
                   ("message", JS.Str "Payment processed, vending requested");
                   ("requestedItems", JS.Arr [JS.Num 7])])) s' /\
    let cmd := JS.Obj [("type", JS.Str "vend"); ("items", JS.Arr [JS.Num 7])] in
    (connected up = false ->
     pendingMessagesQueue s' = pendingMessagesQueue up ++ [cmd] /\
     stringified s' = stringified up) /\
    (connected up = true ->
     pendingMessagesQueue s' = pendingMessagesQueue up /\
     stringified s' = stringified up ++ [cmd] /\
     exists i old,
       vmcSocket up = Some i /\ sockets up !! i = Some (mkUp OPEN old) /\
       sockets s' !! i = Some (mkUp OPEN (old ++ [Sample.stringify cmd]))).
Proof.
  exact (pay_wraps_single_item Sample.stringify up (JS.Obj [("items", JS.Num 7)]) (JS.Num 7)
           eq_refl eq_refl eq_refl).
Defined.

Lemma broadcast_reaches_every_writable_client_witness :
  exists s',
    broadcastToFrontend Sample.stringify Sample.idle_frame three_clients = Ok tt s' /\
    clients s' !! 0 =
      Some (mkClient OPEN false [Sample.stringify Sample.idle_frame]) /\
    clients s' !! 1 = Some (mkClient CLOSED false []) /\
    clients s' !! 2 = Some (mkClient OPEN true []) /\
    clients s' !! 3 =
      Some (mkClient OPEN false [Sample.stringify Sample.idle_frame]).
Proof.
  destruct (broadcast_reaches_every_writable_client
              Sample.stringify Sample.idle_frame three_clients)
    as (s' & Hrun & _ & _ & Hk & _).
  exists s'. split; [exact Hrun|].
  split; [exact (proj1 (Hk 0 _ eq_refl) eq_refl eq_refl)|].
  split; [exact (proj1 (proj2 (Hk 1 _ eq_refl)) ltac:(discriminate))|].
  split; [exact (proj2 (proj2 (Hk 2 _ eq_refl)) eq_refl)|].
  exact (proj1 (Hk 3 _ eq_refl) eq_refl eq_refl).
Defined.

Lemma unparsable_frame_is_dropped_witness :
  step Sample.stringify Sample.parse (UpMessage 0 "vmc: not json") three_clients
  = Ok None three_clients.
Proof.
  destruct (unparsable_frame_is_dropped Sample.stringify Sample.parse
              0 "vmc: not json" three_clients) as (s' & Hrun & Hsame & _).
  rewrite Hrun. rewrite (Hsame eq_refl). reflexivity.
Defined.

End RelayExamples.

(** * Properties of the product loader *)

Section CatalogFacts.

Import Catalog.

Variable readFile : string -> option string.
Variable JSON_parse : string -> option JS.value.
Variable Number_ : JS.value -> option JS.value.
Variable path_resolve : string -> string -> string.
Variable dirname cwd : string.

#[local] Abbreviation mapProduct := (Catalog.mapProduct Number_).
#[local] Abbreviation tryCandidate := (Catalog.tryCandidate readFile JSON_parse Number_).
#[local] Abbreviation loadFrom := (Catalog.loadFrom readFile JSON_parse Number_).
#[local] Abbreviation candidates := (Catalog.candidates path_resolve dirname cwd).
#[local] Abbreviation getProducts :=
  (Catalog.getProducts readFile JSON_parse Number_ path_resolve dirname cwd).
#[local] Abbreviation unmappable := (Catalog.unmappable Number_).
#[local] Abbreviation candidate_fails :=
  (Catalog.candidate_fails readFile JSON_parse Number_).

Lemma mapProduct_throws (raw : JS.value) :
  mapProduct raw = None <-> unmappable raw.
Proof using.
  unfold Catalog.unmappable, Catalog.mapProduct. split.
  - intros H.
    destruct raw; [auto | auto | ..];
      (right; right; cbn in H |- *; eexists; split; [reflexivity|];
       destruct (Number_ _); [discriminate | reflexivity]).
  - intros [-> | [-> | (v3 & E3 & HN)]]; [reflexivity | reflexivity |].
    destruct (JS.get raw "product_id"); [|reflexivity]. cbn.
    destruct (JS.get raw "product_name"); [|reflexivity]. cbn.
    rewrite E3. cbn. rewrite HN. reflexivity.
Qed.

Lemma map_throws (xs : list JS.value) :
  mapM mapProduct xs = None <-> exists x, x ∈ xs /\ unmappable x.
Proof using.
  rewrite mapM_None, Exists_exists. split.
  - intros (x & Hin & Hx). apply mapProduct_throws in Hx. eauto.
  - intros (x & Hin & Hx). exists x. split; [exact Hin|].
    apply mapProduct_throws, Hx.
Qed.

Lemma tryCandidate_fails (p : string) :
  (exists e, tryCandidate p = inl e) <-> candidate_fails p.
Proof using.
  unfold Catalog.tryCandidate, Catalog.candidate_fails.
  destruct (readFile p) as [content|]; [|split; eauto].
  destruct (JSON_parse content) as [data|] eqn:Hparse.
  - split.
    + intros [e He]. right. exists content. split; [reflexivity|]. right.
      destruct data as [| | | | |xs|]; try discriminate.
      exists xs. split; [exact Hparse|]. apply map_throws.
      destruct (mapM mapProduct xs); [discriminate|reflexivity].
    + intros [H | (c & [= <-] & [H | (xs & H & Hin)])]; try congruence.
      rewrite Hparse in H. injection H as ->.
      apply map_throws in Hin. rewrite Hin. eauto.
  - split; [|eauto]. intros _. right. exists content. auto.
Qed.

Lemma loadFrom_fails (ps : list string) :
  forall lastErr,
    (exists e, loadFrom ps lastErr = inl e) <-> Forall candidate_fails ps.
Proof using.
  induction ps as [|p ps IH]; intros lastErr; cbn.
  - split; [constructor | eauto].
  - rewrite Forall_cons, <- tryCandidate_fails.
    destruct (tryCandidate p) as [e|products].
    + rewrite IH. split; [intros H; split; [eauto | exact H] | intros [_ H]; exact H].
    + split; [intros [? ?]; discriminate | intros [[? ?] _]; discriminate].
Qed.

Lemma loadFrom_skips_failures (pre : list string) :
  forall ps lastErr,
    Forall candidate_fails pre ->
    exists lastErr', loadFrom (pre ++ ps) lastErr = loadFrom ps lastErr'.
Proof using.
  induction pre as [|p pre IH]; intros ps lastErr Hpre; cbn.
  - eauto.
  - apply Forall_cons in Hpre as [Hp Hpre].
    apply tryCandidate_fails in Hp as [e ->]. apply IH, Hpre.
Qed.

(** C10, as amended.  When the first candidate that does not fail holds
    JSON that is not an array, the answer is 200 with the empty list.  The
    answer is 500, with the error body, exactly when every candidate
    fails: unreadable, not JSON, or a JSON array with an element on which
    [mapProduct] throws inside the same [try] (a [null] element, or a
    product whose price makes [Number] throw). *)
Theorem products_empty_list_or_server_error :
  (forall pre p post content data,
      candidates = pre ++ p :: post ->
      Forall candidate_fails pre ->
      readFile p = Some content ->
      JSON_parse content = Some data ->
      JS.isArray data = false ->
      getProducts = mkResponse 200 (JS.Arr [])) /\
  (status getProducts = 500 <-> Forall candidate_fails candidates) /\
  (status getProducts = 500 ->
   getProducts =
   mkResponse 500 (JS.Obj [("error", JS.Str "Failed to load products")])).
Proof using.
  unfold Catalog.getProducts, Catalog.loadProducts. repeat split.
  - intros pre p post content data -> Hpre Hread Hparse Harr.
    destruct (loadFrom_skips_failures pre (p :: post) None Hpre) as [e ->].
    cbn. unfold Catalog.tryCandidate. rewrite Hread, Hparse.
    destruct data; try discriminate; reflexivity.
  - intros H. apply (loadFrom_fails _ None).
    destruct (loadFrom candidates None); [eauto | discriminate].
  - intros H. apply (loadFrom_fails _ None) in H as [e ->]. reflexivity.
  - destruct (loadFrom candidates None); [reflexivity | discriminate].
Qed.

End CatalogFacts.

Section CatalogExamples.

Import Catalog.

Lemma products_empty_list_or_server_error_witness :
  getProducts (Sample.readFile "{}") Sample.parse Sample.Number_
              Sample.path_resolve Sample.dirname Sample.cwd
  = mkResponse 200 (JS.Arr []) /\
  getProducts (Sample.readFile "oops") Sample.parse Sample.Number_
              Sample.path_resolve Sample.dirname Sample.cwd
  = mkResponse 500 (JS.Obj [("error", JS.Str "Failed to load products")]).
Proof.
  split.
  - exact (proj1 (products_empty_list_or_server_error
                    (Sample.readFile "{}") Sample.parse Sample.Number_
                    Sample.path_resolve Sample.dirname Sample.cwd)
             [] _ _ "{}" (JS.Obj []) eq_refl (Forall_nil_2 _) eq_refl eq_refl
             eq_refl).
  - exact (proj2 (proj2 (products_empty_list_or_server_error
                    (Sample.readFile "oops") Sample.parse Sample.Number_
                    Sample.path_resolve Sample.dirname Sample.cwd)) eq_refl).
Defined.

(** C10 as it is written fails: the first candidate is read and parsed,
    to the array [[null]], and the answer is 500 all the same. *)
Lemma server_error_although_data_json_parses :
  let p := Sample.path_resolve Sample.dirname "../data.json" in
  p ∈ candidates Sample.path_resolve Sample.dirname Sample.cwd /\
  Sample.readFile "[null]" p = Some "[null]" /\
  Sample.parse "[null]" = Some (JS.Arr [JS.Null]) /\
  getProducts (Sample.readFile "[null]") Sample.parse Sample.Number_
              Sample.path_resolve Sample.dirname Sample.cwd
  = mkResponse 500 (JS.Obj [("error", JS.Str "Failed to load products")]).
Proof.
  cbv zeta. split; [apply list_elem_of_here|]. repeat split.
Qed.

(** [Number] throws on a price that is an object with an own [toString]
    property, and [mapProduct] with it. *)
Lemma mapProduct_throws_on_unconvertible_price :
  mapProduct Sample.Number_
    (JS.Obj [("product_id", JS.Num 7);
             ("product_price", JS.Obj [("toString", JS.Num 0)])]) = None.
Proof. reflexivity. Qed.

End CatalogExamples.

(** * Properties of the vend state machine *)

Section ClientFacts.

Import Client.

Lemma status_vending_received (more : list (string * JS.value)) (u : UI) :
  onMessage (status_frame "vending" more) u =
  mkUI (JS.nullish (JS.assoc "message" more) (JS.Str "Vending started"))
       true (mkModal true vending "Vending in progress…")
       (toastTimeoutRef u) (modalTimerRef u) (timers u) (now u) (next_id u)
       (shown u ++ [JS.nullish (JS.assoc "message" more) (JS.Str "Vending started")])
       (toasts u).
Proof. reflexivity. Qed.

(** A status frame whose status is [idle] always closes the overlay: the
    test of line 60 reads the [modal] of the first render, whose stage is
    [idle]. *)
Lemma status_idle_received (more : list (string * JS.value)) (u : UI) :
  onMessage (status_frame "idle" more) u =
  mkUI (JS.Str "") false (mkModal false idle "")
       (toastTimeoutRef u) (modalTimerRef u) (timers u) (now u) (next_id u)
       (shown u ++ [JS.Str ""]) (toasts u).
Proof. reflexivity. Qed.

(** C4 fails on the code.  A vend-complete frame opens the Complete
    overlay; a status frame with status idle that arrives while it is
    showing (before the 1.5 s timer has run) closes it. *)
Theorem idle_status_closes_complete_overlay
  (more more' : list (string * JS.value)) :
  let showing := onMessage (vend_complete_frame more) mounted in
  let after := onMessage (status_frame "idle" more') showing in
  modal showing = mkModal true complete "Vending complete! 🎉" /\
  timers showing = [mkTimer 1 1500%N CloseModal; mkTimer 2 2500%N ClearToast] /\
  now showing = 0%N /\
  modal after = mkModal false idle "" /\
  isVending after = false /\
  activeMessage after = JS.Str "".
Proof. repeat split. Qed.

Lemma vend_complete_received (more : list (string * JS.value)) (u : UI) :
  toastTimeoutRef u = None -> modalTimerRef u = None -> timers u = [] ->
  onMessage (vend_complete_frame more) u =
  mkUI (JS.Str "Vending complete") false
       (mkModal true complete "Vending complete! 🎉")
       (Some (S (next_id u))) (Some (next_id u))
       [mkTimer (next_id u) (now u + 1500)%N CloseModal;
        mkTimer (S (next_id u)) (now u + 2500)%N ClearToast]
       (now u) (S (S (next_id u)))
       (shown u ++ [JS.Str "Vending complete"])
       (toasts u ++ [JS.Str "Vending complete"]).
Proof.
  intros Ht Hm Hl. unfold onMessage, wsCallback, vend_complete_frame. cbn.
  rewrite Hm. cbn. unfold showToast. cbn. rewrite Ht. cbn. rewrite Hl.
  reflexivity.
Qed.

(** What the passing of [d] ms does once a vend-complete frame has been
    handled at time 0 by a freshly mounted page. *)
Lemma elapse_after_complete (u : UI) (d : N) :
  timers u = [mkTimer 1 1500%N CloseModal; mkTimer 2 2500%N ClearToast] ->
  now u = 0%N ->
  ((d < 1500)%N -> stage (modal (elapse d u)) = stage (modal u) /\
               open (modal (elapse d u)) = open (modal u) /\
               shown (elapse d u) = shown u) /\
  ((1500 <= d)%N -> modal (elapse d u) = mkModal false idle "") /\
  ((1500 <= d < 2500)%N -> shown (elapse d u) = shown u) /\
  ((2500 <= d)%N -> shown (elapse d u) = shown u ++ [JS.Str ""] /\
                activeMessage (elapse d u) = JS.Str "") /\
  toasts (elapse d u) = toasts u.
Proof.
  intros Ht Hn. unfold elapse. rewrite Ht, Hn. cbn.
  repeat case_decide; try lia; cbn; repeat split; intros; try lia; reflexivity.
Qed.

(** C5.  From the mounted page, a status frame with status vending and
    then a vend-complete frame take the overlay through the stages idle,
    vending, complete; the stage stays complete for as long as less than
    1500 ms have passed and is idle, overlay closed, once 1500 ms have
    passed.  [showToast] is called once in all, with the text
    [Vending complete]; the texts displayed are the message of the status
    frame (or [Vending started]) and then [Vending complete], which is
    cleared after 2500 ms. *)
Theorem vending_then_complete_then_idle
  (more more' : list (string * JS.value)) (d : N) :
  let inputs := [Recv (status_frame "vending" more);
                 Recv (vend_complete_frame more')] in
  let first := JS.nullish (JS.assoc "message" more) (JS.Str "Vending started") in
  let final := run (inputs ++ [Wait d]) mounted in
  ((d < 1500)%N ->
   phases (inputs ++ [Wait d]) mounted = [idle; vending; complete; complete] /\
   open (modal final) = true) /\
  ((1500 <= d)%N ->
   phases (inputs ++ [Wait d]) mounted = [idle; vending; complete; idle] /\
   open (modal final) = false) /\
  toasts final = [JS.Str "Vending complete"] /\
  shown (run inputs mounted) = [first; JS.Str "Vending complete"] /\
  ((d < 2500)%N -> shown final = [first; JS.Str "Vending complete"]) /\
  ((2500 <= d)%N -> shown final = [first; JS.Str "Vending complete"; JS.Str ""]).
Proof.
  intros inputs first final.
  set (u2 := run inputs mounted).
  assert (Hu2 : u2 = mkUI (JS.Str "Vending complete") false
                       (mkModal true complete "Vending complete! 🎉")
                       (Some 2) (Some 1)
                       [mkTimer 1 1500%N CloseModal; mkTimer 2 2500%N ClearToast]
                       0%N 3 [first; JS.Str "Vending complete"]
                       [JS.Str "Vending complete"]) by reflexivity.
  assert (Hfinal : final = elapse d u2) by reflexivity.
  assert (Hphases : phases (inputs ++ [Wait d]) mounted =
                    [idle; vending; complete; stage (modal (elapse d u2))])
    by reflexivity.
  destruct (elapse_after_complete u2 d) as (Hlt & Hge & Hmid & Hlate & Htoasts);
    [rewrite Hu2; reflexivity | rewrite Hu2; reflexivity |].
  rewrite Hphases, Hfinal. clearbody u2. subst u2. cbn in *.
  repeat split.
  - destruct (Hlt H) as (-> & _ & _). reflexivity.
  - destruct (Hlt H) as (_ & -> & _). reflexivity.
  - rewrite (Hge H). reflexivity.
  - rewrite (Hge H). reflexivity.
  - exact Htoasts.
  - intros H. destruct (N.lt_ge_cases d 1500) as [H1 | H1].
    + destruct (Hlt H1) as (_ & _ & ->). reflexivity.
    + apply Hmid. lia.
  - intros H. apply Hlate, H.
Qed.

End ClientFacts.

Section ClientExamples.

Import Client.

Lemma vending_then_complete_then_idle_witness :
  phases [Recv (status_frame "vending" []); Recv (vend_complete_frame []);
          Wait 1499] mounted = [idle; vending; complete; complete] /\
  phases [Recv (status_frame "vending" []); Recv (vend_complete_frame []);
          Wait 1500] mounted = [idle; vending; complete; idle] /\
  shown (run [Recv (status_frame "vending" []); Recv (vend_complete_frame []);
              Wait 2500] mounted)
  = [JS.Str "Vending started"; JS.Str "Vending complete"; JS.Str ""].
Proof.
  split; [|split].
  - exact (proj1 (proj1 (vending_then_complete_then_idle [] [] 1499)
                    ltac:(lia))).
  - exact (proj1 (proj1 (proj2 (vending_then_complete_then_idle [] [] 1500))
                    ltac:(lia))).
  - exact (proj2 (proj2 (proj2 (proj2 (proj2
             (vending_then_complete_then_idle [] [] 2500))))) ltac:(lia)).
Defined.

End ClientExamples.

(** * More properties of the relay: what every run keeps *)

Section RelayInvariants.

Import Relay.
Local Open Scope relay_scope.

Variable JSON_stringify : JS.value -> string.
Variable JSON_parse : string -> option JS.value.

#[local] Abbreviation run := (Relay.run JSON_stringify JSON_parse).
#[local] Abbreviation step := (Relay.step JSON_stringify JSON_parse).
#[local] Abbreviation stringify := (Relay.stringify JSON_stringify).

Lemma same_core_refl (s : State) : same_core s s.
Proof. repeat split. Qed.

Lemma same_core_trans (a b c : State) :
  same_core a b -> same_core b c -> same_core a c.
Proof.
  intros (H1 & H2 & H3 & H4) (K1 & K2 & K3 & K4).
  repeat split; congruence.
Qed.

Lemma keeps_core_bind {A B} (m : M A) (k : A -> M B) :
  keeps_core m -> (forall a, keeps_core (k a)) -> keeps_core (bind m k).
Proof.
  intros Hm Hk s. unfold bind. specialize (Hm s).
  destruct (m s) as [a s1|x s1]; cbn in Hm |- *.
  - eapply same_core_trans; [exact Hm | apply Hk].
  - exact Hm.
Qed.

Lemma keeps_core_ret {A} (a : A) : keeps_core (ret a).
Proof. intros s. apply same_core_refl. Qed.

Lemma keeps_core_gets {A} (f : State -> A) : keeps_core (gets f).
Proof. intros s. apply same_core_refl. Qed.

Lemma keeps_core_stringify (v : JS.value) : keeps_core (stringify v).
Proof. intros s. repeat split. Qed.

Lemma keeps_core_queue (f : list JS.value -> list JS.value) :
  keeps_core (modify (set_queue f)).
Proof. intros s. repeat split. Qed.

Lemma keeps_core_clients (f : list Client -> list Client) :
  keeps_core (modify (set_clients f)).
Proof. intros s. repeat split. Qed.

Lemma keeps_core_connected (b : bool) : keeps_core (modify (set_vmcConnected b)).
Proof. intros s. repeat split. Qed.

Lemma keeps_core_send (p : string) : keeps_core (vmcSocket_send p).
Proof.
  intros s. unfold vmcSocket_send.
  destruct (vmcSocket s) as [i|] eqn:Hv; [|apply same_core_refl].
  destruct (sockets s !! i) as [[r old]|] eqn:Hi; [|apply same_core_refl].
  destruct r; cbn; try apply same_core_refl.
  repeat split. cbn. rewrite list_fmap_insert. cbn.
  symmetry. apply list_insert_id. rewrite list_lookup_fmap, Hi. reflexivity.
Qed.

Lemma keeps_core_ws_send (k : nat) (p : string) : keeps_core (ws_send k p).
Proof.
  intros s. unfold ws_send.
  destruct (clients s !! k) as [c|]; [|apply same_core_refl].
  destruct (c_readyState c); cbn; repeat split.
Qed.

Lemma keeps_core_forEach {A} (f : A -> M unit) (xs : list A) :
  (forall x, keeps_core (f x)) -> keeps_core (forEach xs f).
Proof.
  intros Hf. induction xs as [|x xs IH]; cbn [forEach].
  - apply keeps_core_ret.
  - apply keeps_core_bind; [apply Hf | intros _; exact IH].
Qed.

Lemma keeps_core_broadcast (v : JS.value) :
  keeps_core (broadcastToFrontend JSON_stringify v).
Proof. intros s. repeat split. Qed.

Lemma keeps_core_onMessage (data : string) :
  keeps_core (onMessage JSON_stringify JSON_parse data).
Proof.
  intros s. unfold onMessage, try_ignore.
  destruct (JSON_parse data) as [v|]; [|apply same_core_refl].
  pose proof (keeps_core_broadcast v s) as H.
  destruct (broadcastToFrontend JSON_stringify v s); exact H.
Qed.

(** The invariant reads the core only. *)
Lemma well_formed_core (s s' : State) :
  same_core s s' -> well_formed s -> well_formed s'.
Proof.
  intros (Hr & Hv & Hf & Ht) ((Hne & Hcur) & Harm & Hdead).
  assert (Hlen : length (sockets s) = length (sockets s')).
  { rewrite <- (length_map readyState (sockets s)), Hr. apply length_map. }
  assert (Hst : forall i, state_of i s = state_of i s').
  { intros i. unfold state_of. rewrite <- !list_lookup_fmap.
    change (fmap readyState (sockets s)) with (map readyState (sockets s)).
    rewrite Hr. reflexivity. }
  repeat split.
  - intros E. apply Hne. destruct (sockets s); [reflexivity|].
    rewrite E in Hlen. discriminate.
  - rewrite <- Hv, <- Hlen. exact Hcur.
  - unfold armed_has_timer. rewrite <- Hf, <- Ht. exact Harm.
  - unfold dead_has_timer, current_closed in Hdead |- *. rewrite <- Hv, <- Ht.
    destruct (vmcSocket s) as [i|]; [rewrite <- Hst|]; exact Hdead.
Qed.

Lemma current_closed_disconnected (s : State) :
  current_closed s = true -> disconnected s = true.
Proof.
  unfold current_closed, disconnected.
  destruct (vmcSocket s) as [i|]; [|discriminate].
  destruct (state_of i s) as [[]|]; intros H; try discriminate; reflexivity.
Qed.

Lemma ensure_returns (s : State) :
  ensureVmcConnection s = Ok tt (final (ensureVmcConnection s)).
Proof. unfold ensureVmcConnection. destruct (_ && _); reflexivity. Qed.

Lemma ensure_establishes (s : State) :
  current_is_newest s -> armed_has_timer s ->
  well_formed (final (ensureVmcConnection s)).
Proof.
  intros [Hne Hcur] Harm. unfold ensureVmcConnection.
  destruct (vmcConnected s && vmcSocketOpen s) eqn:Hc; cbn.
  - repeat split; try assumption.
    unfold dead_has_timer. intros Hd.
    apply current_closed_disconnected, disconnected_not_open in Hd.
    apply andb_true_iff in Hc as [_ Hc]. congruence.
  - repeat split.
    + cbn. intros E. destruct (sockets s); discriminate.
    + cbn. rewrite length_app. cbn. rewrite Nat.add_1_r. reflexivity.
    + exact Harm.
    + unfold dead_has_timer, current_closed, state_of. cbn.
      rewrite lookup_app_r by lia. rewrite Nat.sub_diag. cbn. discriminate.
Qed.

Lemma after_ensure {A} (rest : M A) (s : State) :
  keeps_core rest -> well_formed s ->
  well_formed (final ((ensureVmcConnection ;; rest) s)).
Proof.
  intros Hrest (Hcur & Harm & _). unfold bind. rewrite ensure_returns.
  eapply well_formed_core; [apply Hrest|].
  apply ensure_establishes; assumption.
Qed.

Lemma state_of_set_readyState (i j : nat) (r : ReadyState) (s : State) :
  state_of j (set_readyState i r s) =
  if decide (j = i) then (fun _ => r) <$> state_of i s else state_of j s.
Proof.
  unfold state_of, set_readyState. cbn.
  destruct (sockets s !! i) as [k|] eqn:Hi.
  - destruct (decide (j = i)) as [->|Hne].
    + rewrite list_lookup_insert_eq by (eapply lookup_lt_Some, Hi).
      reflexivity.
    + rewrite list_lookup_insert_ne by congruence. reflexivity.
  - destruct (decide (j = i)) as [->|Hne]; [rewrite Hi|]; reflexivity.
Qed.

Lemma length_set_readyState (i : nat) (r : ReadyState) (s : State) :
  length (sockets (set_readyState i r s)) = length (sockets s).
Proof.
  unfold set_readyState. cbn.
  destruct (sockets s !! i); [apply length_insert | reflexivity].
Qed.

Lemma current_is_newest_set_readyState (i : nat) (r : ReadyState) (s : State) :
  current_is_newest s -> current_is_newest (set_readyState i r s).
Proof.
  intros [Hne Hcur]. split.
  - intros E. apply Hne. apply length_zero_iff_nil.
    rewrite <- (length_set_readyState i r s), E. reflexivity.
  - rewrite length_set_readyState. exact Hcur.
Qed.

Lemma final_then_ret {A B} (m : M A) (f : A -> B) (s : State) :
  final ((a <- m ;; ret (f a)) s) = final (m s).
Proof. unfold bind. destruct (m s); reflexivity. Qed.

Lemma keeps_core_send_or_queue {A} (cmd : JS.value) (k : M A) :
  keeps_core k ->
  keeps_core (o <- gets vmcSocketOpen ;;
              (if o then p <- stringify cmd ;; vmcSocket_send p
               else modify (set_queue (fun q => q ++ [cmd]))) ;;
              k).
Proof.
  intros Hk. apply keeps_core_bind; [apply keeps_core_gets|]. intros o.
  apply keeps_core_bind; [|intros _; exact Hk].
  destruct o; [|apply keeps_core_queue].
  apply keeps_core_bind; [apply keeps_core_stringify|].
  intros p. apply keeps_core_send.
Qed.

Lemma drop_well_formed (i : nat) (r : ReadyState) (s : State) :
  well_formed s ->
  well_formed (final ((modify (set_vmcConnected false) ;; scheduleVmcReconnect)
                        (set_readyState i r s))).
Proof.
  intros (Hcur & Harm & _). cbn.
  set (s1 := set_vmcConnected false (set_readyState i r s)).
  assert (Harm1 : armed_has_timer s1) by exact Harm.
  assert (Hcur1 : current_is_newest s1)
    by (apply (current_is_newest_set_readyState i r s Hcur)).
  unfold scheduleVmcReconnect.
  destruct (vmcReconnectScheduled s1) eqn:Hf; cbn.
  - repeat split; try apply Hcur1; try exact Harm1.
    intros _. apply Harm1, Hf.
  - repeat split; try apply Hcur1; intros _; cbn; lia.
Qed.

(** Every handler keeps the invariant, whether it returns or throws. *)
Lemma step_well_formed (e : Event) (s : State) :
  well_formed s -> well_formed (final (step e s)).
Proof.
  intros Hwf. destruct e as [|b|i|i data|i|i| |i].
  - (* a browser connects *)
    unfold Relay.step. unfold bind at 1. unfold gets at 1.
    unfold bind at 1. unfold modify at 1.
    rewrite (final_then_ret _ (fun _ => None)).
    apply after_ensure.
    + apply keeps_core_send_or_queue.
      apply keeps_core_bind; [apply keeps_core_stringify|].
      intros p. apply keeps_core_ws_send.
    + eapply well_formed_core; [|exact Hwf]. repeat split.
  - (* a payment *)
    unfold Relay.step. rewrite (final_then_ret _ Some). unfold pay.
    destruct (JS.get (JS.or b (JS.Obj [])) "items") as [items|];
      [|exact Hwf].
    destruct (length (itemArray_of items) =? 0)%nat; [exact Hwf|].
    apply after_ensure; [|exact Hwf].
    apply keeps_core_send_or_queue, keeps_core_ret.
  - (* 'open' *)
    unfold Relay.step. unfold bind at 1. unfold modify at 1.
    rewrite (final_then_ret _ (fun _ => None)).
    unfold onOpen. unfold bind at 1. unfold modify at 1.
    unfold bind at 1. unfold modify at 1.
    eapply well_formed_core.
    + apply keeps_core_bind; [apply keeps_core_gets|]. intros q.
      apply keeps_core_bind.
      { apply keeps_core_forEach. intros m.
        apply keeps_core_bind; [apply keeps_core_stringify|].
        intros p. apply keeps_core_send. }
      intros _. apply keeps_core_queue.
    + destruct Hwf as (Hcur & Harm & Hdead). repeat split.
      * apply (current_is_newest_set_readyState i OPEN s Hcur).
      * apply (current_is_newest_set_readyState i OPEN s Hcur).
      * intros H. discriminate.
      * unfold dead_has_timer, current_closed in Hdead |- *. cbn.
        change (vmcSocket (set_readyState i OPEN s)) with (vmcSocket s).
        destruct (vmcSocket s) as [j|]; [|exact Hdead].
        change (state_of j (set_vmcReconnectScheduled false
                  (set_vmcConnected true (set_readyState i OPEN s))))
          with (state_of j (set_readyState i OPEN s)).
        rewrite state_of_set_readyState.
        destruct (decide (j = i)) as [->|]; [|exact Hdead].
        destruct (state_of i s); cbn; discriminate.
  - (* 'message' *)
    unfold Relay.step. rewrite (final_then_ret _ (fun _ => None)).
    eapply well_formed_core; [apply keeps_core_onMessage | exact Hwf].
  - (* 'error' *)
    unfold Relay.step. unfold bind at 1. unfold modify at 1.
    rewrite (final_then_ret _ (fun _ => None)).
    apply drop_well_formed, Hwf.
  - (* 'close' *)
    unfold Relay.step. unfold bind at 1. unfold modify at 1.
    rewrite (final_then_ret _ (fun _ => None)).
    apply drop_well_formed, Hwf.
  - (* the reconnect timer *)
    unfold Relay.step. unfold bind at 1. unfold modify at 1.
    rewrite (final_then_ret _ (fun _ => None)).
    unfold onReconnectTimer. unfold bind at 1. unfold modify at 1.
    destruct Hwf as (Hcur & _ & _).
    apply ensure_establishes; [exact Hcur|]. intros H. discriminate.
  - (* the close frame of the peer *)
    destruct Hwf as (Hcur & Harm & Hdead). cbn. repeat split.
    + apply (current_is_newest_set_readyState i CLOSING s Hcur).
    + apply (current_is_newest_set_readyState i CLOSING s Hcur).
    + exact Harm.
    + unfold dead_has_timer, current_closed in Hdead |- *.
      change (vmcSocket (set_readyState i CLOSING s)) with (vmcSocket s).
      change (timers (set_readyState i CLOSING s)) with (timers s).
      destruct (vmcSocket s) as [j|]; [|exact Hdead].
      rewrite state_of_set_readyState.
      destruct (decide (j = i)) as [->|]; [|exact Hdead].
      destruct (state_of i s); cbn; discriminate.
Qed.

Lemma booted_well_formed : well_formed booted.
Proof.
  repeat split; (discriminate || (intros H; discriminate)).
Qed.

Lemma run_well_formed (es : list Event) :
  forall s o, well_formed s -> run es s = Some o -> well_formed (final o).
Proof.
  induction es as [|e es IH]; intros s o Hwf; cbn.
  - intros [= <-]. exact Hwf.
  - destruct (enabled e s); [|discriminate].
    pose proof (step_well_formed e s Hwf) as Hstep.
    destruct (step e s) as [r s1|x s1]; cbn in Hstep.
    + apply IH, Hstep.
    + intros [= <-]. exact Hstep.
Qed.

End RelayInvariants.

(** * More properties of the relay: the handlers one by one *)

Section RelayHandlers.

Import Relay.
Local Open Scope relay_scope.

Variable JSON_stringify : JS.value -> string.
Variable JSON_parse : string -> option JS.value.

#[local] Abbreviation run := (Relay.run JSON_stringify JSON_parse).
#[local] Abbreviation step := (Relay.step JSON_stringify JSON_parse).
#[local] Abbreviation stringify := (Relay.stringify JSON_stringify).

Lemma ws_send_to_new_client (st : State) (cs : list Client) (p : string) :
  clients st = cs ++ [mkClient OPEN false []] ->
  ws_send (length cs) p st =
  Ok tt (set_clients (fun _ => cs ++ [mkClient OPEN false [p]]) st).
Proof.
  intros E. unfold ws_send. rewrite E.
  rewrite lookup_app_r by lia. rewrite Nat.sub_diag. cbn.
  unfold set_clients. rewrite E.
  rewrite insert_app_r_alt by lia. rewrite Nat.sub_diag. reflexivity.
Qed.

Lemma connection_result (s : State) :
  (connected s = false ->
   step Connection s =
   Ok None (mkState (sockets s ++ [mkUp CONNECTING []])
                    (Some (length (sockets s)))
                    (vmcConnected s) (vmcReconnectScheduled s)
                    (pendingMessagesQueue s ++ [statusCommand])
                    (timers s)
                    (clients s ++ [mkClient OPEN false [JSON_stringify ack]])
                    (stringified s ++ [ack]))) /\
  (forall i old,
      connected s = true -> vmcSocket s = Some i ->
      sockets s !! i = Some (mkUp OPEN old) ->
      step Connection s =
      Ok None (mkState (<[i := mkUp OPEN (old ++ [JSON_stringify statusCommand])]>
                          (sockets s))
                       (vmcSocket s) (vmcConnected s) (vmcReconnectScheduled s)
                       (pendingMessagesQueue s) (timers s)
                       (clients s ++ [mkClient OPEN false [JSON_stringify ack]])
                       (stringified s ++ [statusCommand; ack]))).
Proof using.
  split.
  - intros Hc. unfold Relay.step, onConnection.
    cbv [bind gets modify ret Relay.stringify].
    rewrite (ensure_when_not_connected (set_clients _ s) Hc).
    cbv [newWebSocket modify].
    rewrite (fresh_socket_not_open (set_clients _ s) _ eq_refl).
    cbv beta iota.
    erewrite ws_send_to_new_client by reflexivity. reflexivity.
  - intros i old Hc Hv Hi. unfold Relay.step, onConnection.
    cbv [bind gets modify ret Relay.stringify].
    rewrite (ensure_when_connected (set_clients _ s) Hc).
    assert (Ho : vmcSocketOpen (set_clients
                   (fun l => l ++ [mkClient OPEN false []]) s) = true).
    { unfold connected in Hc. apply andb_true_iff in Hc. exact (proj2 Hc). }
    rewrite Ho. cbv beta iota.
    pose proof (send_on_open_socket JSON_stringify
                  (set_clients (fun l => l ++ [mkClient OPEN false []]) s)
                  i old statusCommand Hv Hi) as Hsend.
    cbv [bind Relay.stringify] in Hsend. rewrite Hsend.
    erewrite ws_send_to_new_client by reflexivity.
    unfold set_clients, set_stringified. cbn [sockets vmcSocket vmcConnected
      vmcReconnectScheduled pendingMessagesQueue timers clients stringified].
    rewrite <- app_assoc. reflexivity.
Qed.

Lemma fresh_is_not_connected (sk : list UpSocket) (c f : bool)
  (q : list JS.value) (t : nat) (cl : list Client) (st : list JS.value) :
  connected (mkState (sk ++ [mkUp CONNECTING []]) (Some (length sk))
                     c f q t cl st) = false.
Proof.
  unfold connected, vmcSocketOpen. cbn.
  rewrite lookup_app_r by lia. rewrite Nat.sub_diag. cbn. apply andb_false_r.
Qed.

Lemma get_items_total (b : JS.value) :
  exists items, JS.get (JS.or b (JS.Obj [])) "items" = Some items.
Proof.
  unfold JS.or. destruct (JS.truthy b) eqn:Ht; [|cbn; eauto].
  destruct b; cbn in Ht |- *; try discriminate; eauto.
Qed.

Lemma refused_itemArray (items : JS.value) :
  refused items = true <-> itemArray_of items = [].
Proof.
  unfold refused, itemArray_of.
  destruct items as [| |b|n|t|[|x xs]|]; cbn;
    try destruct b; try destruct (n =? 0)%Z; try destruct (String.eqb t "");
    cbn; split; congruence.
Qed.

Lemma pay_result (b : JS.value) (s : State) :
  exists items,
    JS.get (JS.or b (JS.Obj [])) "items" = Some items /\
    (refused items = true ->
     pay JSON_stringify b s =
     Ok (mkResponse 400 (JS.Obj [("error", JS.Str "items array required")])) s) /\
    (refused items = false ->
     exists s',
       pay JSON_stringify b s =
       Ok (mkResponse 200
             (JS.Obj [("ok", JS.Bool true);
                      ("message", JS.Str "Payment processed, vending requested");
                      ("requestedItems", JS.Arr (itemArray_of items))])) s' /\
       pendingMessagesQueue s' =
         (if connected s then pendingMessagesQueue s
          else pendingMessagesQueue s ++ [vendCommand (itemArray_of items)]) /\
       stringified s' =
         (if connected s then stringified s ++ [vendCommand (itemArray_of items)]
          else stringified s) /\
       attempts s' = (if connected s then attempts s else S (attempts s))).
Proof using.
  destruct (get_items_total b) as [items Hget]. exists items.
  split; [exact Hget|]. split.
  - intros Hr. apply refused_itemArray in Hr.
    unfold pay. rewrite Hget. cbv zeta. rewrite Hr. reflexivity.
  - intros Hr.
    assert (Hne : itemArray_of items <> []).
    { intros E. apply refused_itemArray in E. congruence. }
    assert (Hdef : items <> JS.Undefined).
    { intros ->. discriminate. }
    assert (Hb : JS.get b "items" = Some items).
    { unfold JS.or in Hget. destruct (JS.truthy b); [exact Hget|].
      cbn in Hget. congruence. }
    pose proof (pay_accepts JSON_stringify s b items Hb Hne) as [Hq Hs].
    destruct (connected s) eqn:Hc.
    + destruct (connected_socket_open s Hc) as (i & old & Hv & Hi).
      eexists. split; [exact (Hs i old eq_refl Hv Hi)|].
      cbn. unfold attempts. cbn. rewrite length_insert. repeat split.
    + eexists. split; [exact (Hq eq_refl)|].
      cbn. unfold attempts. cbn. rewrite length_app. cbn.
      rewrite Nat.add_1_r. repeat split.
Qed.

Lemma drop_result (i : nat) (r : ReadyState) (s : State) :
  (modify (set_readyState i r) ;; onClose ;; ret (@None Response)) s =
  Ok None (mkState (sockets (set_readyState i r s)) (vmcSocket s) false true
                   (pendingMessagesQueue s)
                   (if vmcReconnectScheduled s then timers s else S (timers s))
                   (clients s) (stringified s)).
Proof.
  cbv [bind modify ret onClose scheduleVmcReconnect].
  unfold set_vmcConnected, set_vmcReconnectScheduled, set_timers,
    set_readyState, set_sockets.
  cbn [sockets vmcSocket vmcConnected vmcReconnectScheduled
       pendingMessagesQueue timers clients stringified].
  destruct (vmcReconnectScheduled s) eqn:Hf; reflexivity.
Qed.

Lemma forEach_send_dropped (q : list JS.value) :
  forall (s : State) (j : nat) (r : ReadyState) (old : list string),
    vmcSocket s = Some j ->
    sockets s !! j = Some (mkUp r old) ->
    r = CLOSING \/ r = CLOSED ->
    forEach q (fun msg => p <- stringify msg ;; vmcSocket_send p) s =
    Ok tt (set_stringified (fun l => l ++ q) s).
Proof.
  induction q as [|m q IH]; intros s j r old Hv Hi Hr.
  - cbn. unfold ret, set_stringified. rewrite app_nil_r. destruct s; reflexivity.
  - cbn [forEach]. unfold bind at 1.
    assert (Hone : (p <- stringify m ;; vmcSocket_send p) s =
                   Ok tt (set_stringified (fun l => l ++ [m]) s)).
    { cbv [bind Relay.stringify vmcSocket_send].
      cbn [vmcSocket sockets set_stringified]. rewrite Hv, Hi.
      destruct Hr as [-> | ->]; reflexivity. }
    rewrite Hone. rewrite (IH _ j r old); try assumption.
    unfold set_stringified. cbn. rewrite <- app_assoc. reflexivity.
Qed.

Lemma forEach_send_connecting (m : JS.value) (q : list JS.value) (s : State)
  (j : nat) (old : list string) :
  vmcSocket s = Some j ->
  sockets s !! j = Some (mkUp CONNECTING old) ->
  forEach (m :: q) (fun msg => p <- stringify msg ;; vmcSocket_send p) s =
  Threw "WebSocket is not open: readyState 0 (CONNECTING)"
        (set_stringified (fun l => l ++ [m]) s).
Proof.
  intros Hv Hi. cbn [forEach].
  cbv [bind Relay.stringify vmcSocket_send].
  cbn [vmcSocket sockets set_stringified]. rewrite Hv, Hi. reflexivity.
Qed.

Lemma sockets_set_readyState (i j : nat) (r : ReadyState) (s : State) :
  sockets (set_readyState i r s) !! j =
  if decide (j = i) then (fun k => mkUp r (sent k)) <$> sockets s !! i
  else sockets s !! j.
Proof.
  unfold set_readyState. cbn.
  destruct (sockets s !! i) as [k|] eqn:Hi.
  - destruct (decide (j = i)) as [->|Hne].
    + rewrite list_lookup_insert_eq by (eapply lookup_lt_Some, Hi). reflexivity.
    + rewrite list_lookup_insert_ne by congruence. reflexivity.
  - destruct (decide (j = i)) as [->|Hne]; [rewrite Hi|]; reflexivity.
Qed.

Lemma open_unfolded (i : nat) (s : State) :
  step (UpOpen i) s =
  match forEach (pendingMessagesQueue s)
          (fun msg => p <- stringify msg ;; vmcSocket_send p)
          (set_vmcReconnectScheduled false
             (set_vmcConnected true (set_readyState i OPEN s))) with
  | Ok _ s' => Ok None (set_queue (fun _ => []) s')
  | Threw x s' => Threw x s'
  end.
Proof.
  unfold Relay.step, onOpen. cbv [bind modify gets ret].
  destruct (forEach _ _ _); reflexivity.
Qed.

(** The ['open'] handler throws exactly when the socket that opened is not
    the current one, the current one is still connecting, and the queue
    is not empty. *)
Lemma open_throws (s : State) (i j : nat) :
  vmcSocket s = Some j -> j < length (sockets s) ->
  (exists x s', step (UpOpen i) s = Threw x s') <->
  (i <> j /\ state_of j s = Some CONNECTING /\ pendingMessagesQueue s <> []).
Proof using.
  intros Hv Hlt. rewrite open_unfolded.
  set (s2 := set_vmcReconnectScheduled false _).
  destruct (lookup_lt_is_Some_2 _ _ Hlt) as [[r old] Hj].
  assert (Hst : state_of j s = Some r) by (unfold state_of; rewrite Hj; reflexivity).
  assert (Hv2 : vmcSocket s2 = Some j) by exact Hv.
  assert (Hj2 : sockets s2 !! j =
                if decide (j = i) then Some (mkUp OPEN old) else Some (mkUp r old)).
  { change (sockets s2) with (sockets (set_readyState i OPEN s)).
    rewrite sockets_set_readyState.
    destruct (decide (j = i)) as [->|]; [rewrite Hj|exact Hj]; reflexivity. }
  destruct (decide (j = i)) as [->|Hne].
  - rewrite (forEach_send_on_open_socket JSON_stringify _ s2 i old Hv2 Hj2).
    split; [intros (x & s' & [=]) | intros (H & _); contradiction].
  - destruct r.
    + destruct (pendingMessagesQueue s) as [|m q] eqn:Hq.
      * cbn. split; [intros (x & s' & [=]) | intros (_ & _ & H); contradiction].
      * rewrite (forEach_send_connecting m q s2 j old Hv2 Hj2).
        split; [|eauto]. intros _. repeat split; congruence.
    + rewrite (forEach_send_on_open_socket JSON_stringify _ s2 j old Hv2 Hj2).
      split; [intros (x & s' & [=]) | intros (_ & H & _); congruence].
    + rewrite (forEach_send_dropped _ s2 j CLOSING old Hv2 Hj2) by auto.
      split; [intros (x & s' & [=]) | intros (_ & H & _); congruence].
    + rewrite (forEach_send_dropped _ s2 j CLOSED old Hv2 Hj2) by auto.
      split; [intros (x & s' & [=]) | intros (_ & H & _); congruence].
Qed.

Lemma classic_event_is_open (e : Event) :
  (exists i, e = UpOpen i) \/ (forall i, e <> UpOpen i).
Proof. destruct e; eauto; right; intros; discriminate. Qed.

Lemma other_handlers_return (e : Event) (s : State) :
  (forall i, e <> UpOpen i) -> exists r s', step e s = Ok r s'.
Proof using.
  intros Hnot. destruct e as [|b|i|i data|i|i| |i].
  - destruct (connected s) eqn:Hc.
    + destruct (connected_socket_open s Hc) as (i & old & Hv & Hi).
      rewrite (proj2 (connection_result s) i old Hc Hv Hi). eauto.
    + rewrite (proj1 (connection_result s) Hc). eauto.
  - destruct (pay_result b s) as (items & _ & H400 & H200).
    unfold Relay.step, bind.
    destruct (refused items).
    + rewrite (H400 eq_refl). cbn. eauto.
    + destruct (H200 eq_refl) as (s' & -> & _). cbn. eauto.
  - exfalso. exact (Hnot i eq_refl).
  - unfold Relay.step, bind. rewrite onMessage_result.
    destruct (JSON_parse data); [rewrite broadcast_result|]; cbn; eauto.
  - change (step (UpError i) s) with
      ((modify (set_readyState i CLOSING) ;; onClose ;; ret (@None Response)) s).
    rewrite drop_result. eauto.
  - change (step (UpClose i) s) with
      ((modify (set_readyState i CLOSED) ;; onClose ;; ret (@None Response)) s).
    rewrite drop_result. eauto.
  - unfold Relay.step, onReconnectTimer. cbv [bind modify ret].
    rewrite ensure_returns. eauto.
  - cbn. eauto.
Qed.

Lemma pay_request_while_down (xs : list JS.value) (s : State) :
  connected s = false -> xs <> [] ->
  step (pay_request xs) s =
  Ok (Some (mkResponse 200
              (JS.Obj [("ok", JS.Bool true);
                       ("message", JS.Str "Payment processed, vending requested");
                       ("requestedItems", JS.Arr xs)])))
     (mkState (sockets s ++ [mkUp CONNECTING []])
              (Some (length (sockets s)))
              (vmcConnected s) (vmcReconnectScheduled s)
              (pendingMessagesQueue s ++ [vendCommand xs])
              (timers s) (clients s) (stringified s)).
Proof using.
  intros Hc Hne. unfold pay_request, Relay.step. unfold bind at 1.
  rewrite (proj1 (pay_accepts JSON_stringify s
                    (JS.Obj [("items", JS.Arr xs)]) (JS.Arr xs) eq_refl Hne) Hc).
  reflexivity.
Qed.

(** Payments that arrive one after the other while the upstream is not
    connected, no other event in between: each opens an attempt, and the
    commands line up in the queue in order of arrival. *)
Lemma pay_requests_while_down (l : list (list JS.value)) :
  forall (xs : list JS.value) (s : State) (rest : list Event),
    connected s = false ->
    Forall (fun ys => ys <> []) (xs :: l) ->
    run (map pay_request (xs :: l) ++ rest) s =
    run rest
        (mkState (sockets s ++ replicate (S (length l)) (mkUp CONNECTING []))
                 (Some (length (sockets s) + length l))
                 (vmcConnected s) (vmcReconnectScheduled s)
                 (pendingMessagesQueue s ++ map vendCommand (xs :: l))
                 (timers s) (clients s) (stringified s)).
Proof using.
  induction l as [|ys l IH]; intros xs s rest Hc Hall;
    apply Forall_cons in Hall as [Hxs Hall].
  - cbn [map app Relay.run enabled pay_request].
    change (PayRequest (JS.Obj [("items", JS.Arr xs)])) with (pay_request xs).
    rewrite (pay_request_while_down xs s Hc Hxs).
    cbn. rewrite Nat.add_0_r. reflexivity.
  - change (map pay_request (xs :: ys :: l) ++ rest)
      with (pay_request xs :: (map pay_request (ys :: l) ++ rest)).
    cbn [Relay.run]. change (enabled (pay_request xs) s) with true. cbv iota.
    rewrite (pay_request_while_down xs s Hc Hxs).
    rewrite IH; [|apply fresh_is_not_connected|exact Hall].
    f_equal. cbn [sockets vmcSocket vmcConnected vmcReconnectScheduled
                  pendingMessagesQueue timers clients stringified].
    f_equal.
    + rewrite <- app_assoc. reflexivity.
    + rewrite length_app. cbn. f_equal. lia.
    + rewrite <- app_assoc. reflexivity.
Qed.

End RelayHandlers.

(** * More properties of the relay: statements *)

Section RelayMore.

Import Relay.
Local Open Scope relay_scope.

Variable JSON_stringify : JS.value -> string.
Variable JSON_parse : string -> option JS.value.

#[local] Abbreviation run := (Relay.run JSON_stringify JSON_parse).
#[local] Abbreviation step := (Relay.step JSON_stringify JSON_parse).
#[local] Abbreviation stringify := (Relay.stringify JSON_stringify).

(** X1.  In every state the relay reaches, and in the state a handler
    that threw leaves behind, [vmcSocket] is not [null]: it refers to the
    upstream socket constructed last. *)
Theorem vmcSocket_is_newest_socket (es : list Event) (o : Outcome unit) :
  run es booted = Some o ->
  exists i, vmcSocket (final o) = Some i /\
            length (sockets (final o)) = S i /\
            is_Some (sockets (final o) !! i).
Proof using.
  intros Hrun.
  destruct (run_well_formed JSON_stringify JSON_parse es booted o
              booted_well_formed Hrun) as ((Hne & Hcur) & _ & _).
  destruct (sockets (final o)) as [|k l] eqn:E; [contradiction|].
  exists (length l). cbn in Hcur. repeat split; [exact Hcur|].
  apply lookup_lt_is_Some_2. cbn. lia.
Qed.

(** X2.  In every state the relay reaches, when [vmcReconnectScheduled]
    is set a timeout is pending: the flag never stays set with nothing
    left to clear it. *)
Theorem armed_flag_has_pending_timer (es : list Event) (o : Outcome unit) :
  run es booted = Some o ->
  vmcReconnectScheduled (final o) = true ->
  0 < timers (final o).
Proof using.
  intros Hrun.
  exact (proj1 (proj2 (run_well_formed JSON_stringify JSON_parse es booted o
                         booted_well_formed Hrun))).
Qed.

(** X3.  In every state the relay reaches, when the current socket is
    closed a timeout is pending, so [ensureVmcConnection] will be called
    again: the relay is never left with a closed upstream and no retry to
    come.  (A socket that the close frame of the peer has turned
    [CLOSING] has not emitted ['close'] yet; the timer is armed when it
    does.) *)
Theorem dead_upstream_has_pending_timer (es : list Event) (o : Outcome unit) :
  run es booted = Some o ->
  current_closed (final o) = true ->
  0 < timers (final o).
Proof using.
  intros Hrun.
  exact (proj2 (proj2 (run_well_formed JSON_stringify JSON_parse es booted o
                         booted_well_formed Hrun))).
Qed.

(** X4.  In a state the relay reaches, a handler throws in one situation
    only: a socket opens that is not the current one, while the current
    one is still connecting and the queue is not empty.  Every other
    event is handled without a throw. *)
Theorem handler_throws_exactly_on_stale_open
  (es : list Event) (s : State) (e : Event) :
  run es booted = Some (Ok tt s) ->
  (exists x s', step e s = Threw x s') <->
  (exists i j, e = UpOpen i /\ vmcSocket s = Some j /\ i <> j /\
               state_of j s = Some CONNECTING /\
               pendingMessagesQueue s <> []).
Proof using.
  intros Hrun.
  destruct (run_well_formed JSON_stringify JSON_parse es booted _
              booted_well_formed Hrun) as ((Hne & Hcur) & _ & _).
  cbn [final] in Hne, Hcur.
  assert (Hlt : pred (length (sockets s)) < length (sockets s)).
  { destruct (sockets s); [contradiction | cbn; lia]. }
  split.
  - intros (x & s' & Hthrow).
    destruct (classic_event_is_open e) as [[i ->] | Hnot].
    + exists i, (pred (length (sockets s))).
      pose proof (proj1 (open_throws JSON_stringify JSON_parse s i _ Hcur Hlt)
                    (ex_intro _ x (ex_intro _ s' Hthrow))) as (H1 & H2 & H3).
      repeat split; assumption.
    + destruct (other_handlers_return JSON_stringify JSON_parse e s Hnot)
        as (r & s'' & E).
      congruence.
  - intros (i & j & -> & Hv & Hij & Hst & Hq).
    assert (j = pred (length (sockets s))) as -> by congruence.
    apply (open_throws JSON_stringify JSON_parse s i _ Hcur Hlt). repeat split; assumption.
Qed.

(** X5.  Payments that arrive one after the other while the upstream is
    not connected are all accepted; when the socket opened for the last of
    them then opens, everything queued (what was queued before and the
    vend commands, in order of arrival) is transmitted on that socket,
    once each and in that order, the queue is left empty and the upstream
    is connected. *)
Theorem queued_payments_flush_in_order
  (s : State) (xs : list JS.value) (l : list (list JS.value)) :
  connected s = false ->
  Forall (fun ys => ys <> []) (xs :: l) ->
  exists s',
    run (map pay_request (xs :: l) ++ [UpOpen (length (sockets s) + length l)]) s
    = Some (Ok tt s') /\
    sockets s' !! (length (sockets s) + length l) =
      Some (mkUp OPEN (map JSON_stringify
                         (pendingMessagesQueue s ++ map vendCommand (xs :: l)))) /\
    pendingMessagesQueue s' = [] /\
    connected s' = true /\
    attempts s' = attempts s + S (length l).
Proof using.
  intros Hc Hall.
  rewrite (pay_requests_while_down JSON_stringify JSON_parse l xs s _ Hc Hall).
  set (n := length (sockets s) + length l).
  set (s1 := mkState _ _ _ _ _ _ _ _).
  assert (Hn : sockets s1 !! n = Some (mkUp CONNECTING [])).
  { subst s1 n. cbn [sockets]. rewrite lookup_app_r by lia.
    apply lookup_replicate_2. lia. }
  destruct (open_of_current_socket_flushes JSON_stringify JSON_parse
              s1 n [] eq_refl Hn) as [Hen Hstep].
  cbn [Relay.run]. rewrite Hen, Hstep. eexists. split; [reflexivity|].
  assert (Hlt : n < length (sockets s1)) by (eapply lookup_lt_Some, Hn).
  cbn [sockets pendingMessagesQueue]. repeat split.
  - rewrite list_lookup_insert_eq by exact Hlt. reflexivity.
  - unfold connected, vmcSocketOpen.
    cbn [vmcConnected vmcSocket sockets].
    rewrite list_lookup_insert_eq by exact Hlt. reflexivity.
  - unfold attempts. cbn [sockets]. rewrite length_insert.
    subst s1. cbn [sockets]. rewrite length_app, length_replicate. reflexivity.
Qed.

(** X6.  When the ['error'] of a socket is followed by its ['close'], one
    reconnect timer is armed, not two, and none if one was armed already;
    the socket ends closed, the upstream is marked not connected, and no
    attempt is opened before the timer runs. *)
Theorem error_then_close_arms_one_timer (s : State) (i : nat) :
  enabled (UpError i) s = true ->
  exists s',
    run [UpError i; UpClose i] s = Some (Ok tt s') /\
    timers s' = (if vmcReconnectScheduled s then timers s else S (timers s)) /\
    vmcReconnectScheduled s' = true /\
    vmcConnected s' = false /\
    state_of i s' = Some CLOSED /\
    attempts s' = attempts s /\
    pendingMessagesQueue s' = pendingMessagesQueue s.
Proof using.
  intros Hen. cbn [Relay.run]. rewrite Hen.
  change (step (UpError i) s) with
    ((modify (set_readyState i CLOSING) ;; onClose ;; ret (@None Response)) s).
  rewrite drop_result.
  set (s1 := mkState _ _ _ _ _ _ _ _).
  assert (Hi : state_of i s1 = Some CLOSING).
  { subst s1. unfold state_of. cbn [sockets].
    rewrite sockets_set_readyState. destruct (decide (i = i)); [|congruence].
    unfold enabled, state_of in Hen.
    destruct (sockets s !! i) as [k|]; [reflexivity|discriminate]. }
  assert (Hen1 : enabled (UpClose i) s1 = true).
  { unfold enabled. rewrite Hi. reflexivity. }
  assert (Hclosed : state_of i (set_readyState i CLOSED s1) = Some CLOSED).
  { rewrite state_of_set_readyState, Hi.
    destruct (decide (i = i)); [reflexivity|congruence]. }
  rewrite Hen1.
  change (step (UpClose i) s1) with
    ((modify (set_readyState i CLOSED) ;; onClose ;; ret (@None Response)) s1).
  rewrite drop_result. eexists. split; [reflexivity|].
  cbn [timers vmcReconnectScheduled vmcConnected pendingMessagesQueue].
  split; [subst s1; reflexivity|].
  split; [reflexivity|]. split; [reflexivity|].
  split; [exact Hclosed|].
  split; [|subst s1; reflexivity].
  unfold attempts. cbn [sockets]. rewrite length_set_readyState.
  subst s1. cbn [sockets]. apply length_set_readyState.
Qed.


(** X8.  The handler of [POST /api/pay], whatever value [req.body] has
    when it runs, never throws.  It answers 400, with the relay untouched,
    exactly when [items] is absent, falsy or the empty array.  Otherwise
    it answers 200 with [requestedItems] the item array and, when the
    upstream is not connected, opens one attempt and queues the vend
    command behind it, sending nothing; when the upstream is connected,
    it stringifies the vend command once and sends it on the current
    socket, after what was sent before, and touches nothing else. *)
Theorem pay_answers_every_request (b : JS.value) (s : State) :
  exists items,
    JS.get (JS.or b (JS.Obj [])) "items" = Some items /\
    (exists r s', pay JSON_stringify b s = Ok r s' /\
                  (status r = 400 <-> refused items = true) /\
                  (status r = 200 <-> refused items = false)) /\
    (refused items = true ->
     pay JSON_stringify b s =
     Ok (mkResponse 400 (JS.Obj [("error", JS.Str "items array required")])) s) /\
    let ok := mkResponse 200
                (JS.Obj [("ok", JS.Bool true);
                         ("message", JS.Str "Payment processed, vending requested");
                         ("requestedItems", JS.Arr (itemArray_of items))]) in
    let cmd := JS.Obj [("type", JS.Str "vend");
                       ("items", JS.Arr (itemArray_of items))] in
    (refused items = false -> connected s = false ->
     pay JSON_stringify b s =
     Ok ok (mkState (sockets s ++ [mkUp CONNECTING []])
                    (Some (length (sockets s)))
                    (vmcConnected s) (vmcReconnectScheduled s)
                    (pendingMessagesQueue s ++ [cmd])
                    (timers s) (clients s) (stringified s))) /\
    (refused items = false -> connected s = true ->
     exists i old,
       vmcSocket s = Some i /\
       sockets s !! i = Some (mkUp OPEN old) /\
       pay JSON_stringify b s =
       Ok ok (mkState (<[i := mkUp OPEN (old ++ [JSON_stringify cmd])]> (sockets s))
                      (vmcSocket s) (vmcConnected s) (vmcReconnectScheduled s)
                      (pendingMessagesQueue s)
                      (timers s) (clients s) (stringified s ++ [cmd]))).
Proof using.
  destruct (get_items_total b) as [items Hget]. exists items.
  split; [exact Hget|].
  assert (H400 : refused items = true ->
                 pay JSON_stringify b s =
                 Ok (mkResponse 400
                       (JS.Obj [("error", JS.Str "items array required")])) s).
  { intros Hr. apply refused_itemArray in Hr.
    unfold pay. rewrite Hget. cbv zeta. rewrite Hr. reflexivity. }
  assert (Hacc : refused items = false ->
                 JS.get b "items" = Some items /\ itemArray_of items <> []).
  { intros Hr. split.
    - assert (Hdef : items <> JS.Undefined) by (intros ->; discriminate).
      unfold JS.or in Hget. destruct (JS.truthy b); [exact Hget|].
      cbn in Hget. congruence.
    - intros E. apply refused_itemArray in E. congruence. }
  cbv zeta. split; [|split; [exact H400|split]].
  - destruct (refused items) eqn:Hr.
    + eexists _, _. split; [exact (H400 eq_refl)|]. cbn. split; split; congruence.
    + destruct (Hacc eq_refl) as [Hb Hne].
      destruct (connected s) eqn:Hc.
      * destruct (connected_socket_open s Hc) as (i & old & Hv & Hi).
        eexists _, _.
        split; [exact (proj2 (pay_accepts JSON_stringify s b items Hb Hne)
                         i old Hc Hv Hi)|].
        cbn. split; split; congruence.
      * eexists _, _.
        split; [exact (proj1 (pay_accepts JSON_stringify s b items Hb Hne) Hc)|].
        cbn. split; split; congruence.
  - intros Hr Hc. destruct (Hacc Hr) as [Hb Hne].
    exact (proj1 (pay_accepts JSON_stringify s b items Hb Hne) Hc).
  - intros Hr Hc. destruct (Hacc Hr) as [Hb Hne].
    destruct (connected_socket_open s Hc) as (i & old & Hv & Hi).
    exists i, old. split; [exact Hv|]. split; [exact Hi|].
    exact (proj2 (pay_accepts JSON_stringify s b items Hb Hne) i old Hc Hv Hi).
Qed.

(** X9.  A browser that connects is registered and receives the
    [backend-status] acknowledgement at once, first thing in its inbox,
    whatever the state of the upstream; the handler never throws and no
    other browser receives anything.  The status probe is sent on the
    open socket when the upstream is connected, and is queued behind a new
    attempt when it is not. *)
Theorem connection_is_acknowledged_and_probed (s : State) :
  exists s',
    step Connection s = Ok None s' /\
    clients s' = clients s ++ [mkClient OPEN false [JSON_stringify ack]] /\
    (connected s = false ->
     pendingMessagesQueue s' = pendingMessagesQueue s ++ [statusCommand] /\
     transmitted s' = transmitted s ++ [[]] /\
     vmcSocket s' = Some (length (sockets s))) /\
    (connected s = true ->
     pendingMessagesQueue s' = pendingMessagesQueue s /\
     attempts s' = attempts s /\
     exists i old,
       vmcSocket s' = Some i /\ sockets s !! i = Some (mkUp OPEN old) /\
       sockets s' !! i = Some (mkUp OPEN (old ++ [JSON_stringify statusCommand]))).
Proof using.
  destruct (connected s) eqn:Hc.
  - destruct (connected_socket_open s Hc) as (i & old & Hv & Hi).
    eexists. split; [exact (proj2 (connection_result JSON_stringify JSON_parse s)
                              i old Hc Hv Hi)|].
    cbn [clients pendingMessagesQueue vmcSocket sockets]. unfold attempts.
    cbn [sockets]. split; [reflexivity|]. split; [discriminate|].
    intros _. split; [reflexivity|]. split; [apply length_insert|].
    exists i, old. repeat split; try assumption.
    apply list_lookup_insert_eq. eapply lookup_lt_Some, Hi.
  - eexists. split; [exact (proj1 (connection_result JSON_stringify JSON_parse s)
                              Hc)|].
    cbn [clients pendingMessagesQueue vmcSocket sockets]. unfold transmitted.
    cbn [sockets]. split; [reflexivity|]. split; [|discriminate].
    intros _. rewrite map_app. repeat split.
Qed.

End RelayMore.

(** * More properties of the vend state machine *)

Section ClientMore.

Import Client.

(** ** Timers *)

Lemma NoDup_ids_filter (P : Timer -> Prop) `{forall t, Decision (P t)}
  (l : list Timer) :
  NoDup (map id l) -> NoDup (map id (filter P l)).
Proof.
  induction l as [|t l IH]; [intros; constructor|].
  cbn [map]. rewrite NoDup_cons. intros [Hnot Hnd].
  rewrite filter_cons. destruct (decide (P t)); [|apply IH, Hnd].
  cbn [map]. apply NoDup_cons. split; [|apply IH, Hnd].
  intros Hin. apply Hnot.
  apply list_elem_of_fmap in Hin as (t' & E & Hin).
  apply list_elem_of_filter in Hin as [_ Hin].
  apply list_elem_of_fmap. eauto.
Qed.

Lemma same_id_same_timer (l : list Timer) (t1 t2 : Timer) :
  NoDup (map id l) -> t1 ∈ l -> t2 ∈ l -> id t1 = id t2 -> t1 = t2.
Proof.
  induction l as [|t l IH]; [intros _ H; inversion H|].
  cbn [map]. rewrite NoDup_cons. intros [Hnot Hnd] H1 H2 E.
  apply elem_of_cons in H1 as [-> | H1];
    apply elem_of_cons in H2 as [-> | H2]; auto.
  - exfalso. apply Hnot. rewrite E. apply list_elem_of_fmap. eauto.
  - exfalso. apply Hnot. rewrite <- E. apply list_elem_of_fmap. eauto.
Qed.

Lemma clearTimeout_tracked (i : nat) (u : UI) :
  timers_tracked u -> timers_tracked (clearTimeout i u).
Proof.
  intros (Hm & Ht & Hid & Hrm & Hrt & Hkm & Hkt & Hnd). unfold timers_tracked. cbn.
  repeat split; try assumption.
  - intros t [_ Hin]%list_elem_of_filter. apply Hm, Hin.
  - intros t [_ Hin]%list_elem_of_filter. apply Ht, Hin.
  - intros t [_ Hin]%list_elem_of_filter. apply Hid, Hin.
  - intros t [_ Hin]%list_elem_of_filter. apply Hkm, Hin.
  - intros t [_ Hin]%list_elem_of_filter. apply Hkt, Hin.
  - apply NoDup_ids_filter, Hnd.
Qed.

(** After [clearTimeout] of what a ref holds, no timer of that kind is
    pending. *)
Lemma no_dismiss_timer_after_clear (u : UI) :
  timers_tracked u ->
  forall t,
    t ∈ timers (match modalTimerRef u with
                | Some i => clearTimeout i u
                | None => u
                end) ->
    callback t <> CloseModal.
Proof.
  intros (Hm & _) t Hin Hcb.
  destruct (modalTimerRef u) as [i|] eqn:Hr.
  - cbn in Hin. apply list_elem_of_filter in Hin as [Hne Hin].
    specialize (Hm t Hin Hcb). congruence.
  - specialize (Hm t Hin Hcb). congruence.
Qed.

Lemma no_toast_timer_after_clear (u : UI) :
  timers_tracked u ->
  forall t,
    t ∈ timers (match toastTimeoutRef u with
                | Some i => clearTimeout i u
                | None => u
                end) ->
    callback t <> ClearToast.
Proof.
  intros (_ & Ht & _) t Hin Hcb.
  destruct (toastTimeoutRef u) as [i|] eqn:Hr.
  - cbn in Hin. apply list_elem_of_filter in Hin as [Hne Hin].
    specialize (Ht t Hin Hcb). congruence.
  - specialize (Ht t Hin Hcb). congruence.
Qed.

Lemma cleared_tracked_modal (u : UI) :
  timers_tracked u ->
  timers_tracked (match modalTimerRef u with
                  | Some i => clearTimeout i u
                  | None => u
                  end).
Proof.
  intros H. destruct (modalTimerRef u); [apply clearTimeout_tracked|]; exact H.
Qed.

Lemma cleared_tracked_toast (u : UI) :
  timers_tracked u ->
  timers_tracked (match toastTimeoutRef u with
                  | Some i => clearTimeout i u
                  | None => u
                  end).
Proof.
  intros H. destruct (toastTimeoutRef u); [apply clearTimeout_tracked|]; exact H.
Qed.

(** A timer of the list extended by [setTimeout] is an old one or the
    new one. *)
Ltac old_or_new H :=
  apply elem_of_app in H as [H | H];
  [| apply list_elem_of_singleton in H as ->].

Lemma armed_dismiss_tracked (ms : N) (u : UI) :
  timers_tracked u ->
  (forall t, t ∈ timers u -> callback t <> CloseModal) ->
  timers_tracked (set_modalTimerRef (Some (next_id u))
                    (snd (setTimeout CloseModal ms u))).
Proof.
  intros (Hm & Ht & Hid & Hrm & Hrt & Hkm & Hkt & Hnd) Hnone.
  unfold timers_tracked. cbn. repeat split.
  - intros t Hin Hcb. old_or_new Hin;
      [destruct (Hnone t Hin Hcb) | reflexivity].
  - intros t Hin Hcb. old_or_new Hin;
      [apply Ht; assumption | discriminate].
  - intros t Hin. old_or_new Hin;
      [specialize (Hid t Hin); lia | cbn; lia].
  - intros i [= <-]. lia.
  - intros i Hi. specialize (Hrt i Hi). lia.
  - intros t Hin E. old_or_new Hin; [|reflexivity].
    specialize (Hid t Hin). injection E as E. lia.
  - intros t Hin E. old_or_new Hin; [apply Hkt; assumption|].
    cbn in E. specialize (Hrt _ E). lia.
  - rewrite map_app. apply NoDup_app. repeat split; [exact Hnd| |].
    + intros x Hx Hnew. cbn in Hnew.
      apply list_elem_of_singleton in Hnew as ->.
      apply list_elem_of_fmap in Hx as (t & E & Hin).
      specialize (Hid t Hin). lia.
    + cbn. apply NoDup_singleton.
Qed.

Lemma armed_toast_tracked (ms : N) (u : UI) :
  timers_tracked u ->
  (forall t, t ∈ timers u -> callback t <> ClearToast) ->
  timers_tracked (set_toastTimeoutRef (Some (next_id u))
                    (snd (setTimeout ClearToast ms u))).
Proof.
  intros (Hm & Ht & Hid & Hrm & Hrt & Hkm & Hkt & Hnd) Hnone.
  unfold timers_tracked. cbn. repeat split.
  - intros t Hin Hcb. old_or_new Hin;
      [apply Hm; assumption | discriminate].
  - intros t Hin Hcb. old_or_new Hin;
      [destruct (Hnone t Hin Hcb) | reflexivity].
  - intros t Hin. old_or_new Hin;
      [specialize (Hid t Hin); lia | cbn; lia].
  - intros i Hi. specialize (Hrm i Hi). lia.
  - intros i [= <-]. lia.
  - intros t Hin E. old_or_new Hin; [apply Hkm; assumption|].
    cbn in E. specialize (Hrm _ E). lia.
  - intros t Hin E. old_or_new Hin; [|reflexivity].
    specialize (Hid t Hin). injection E as E. lia.
  - rewrite map_app. apply NoDup_app. repeat split; [exact Hnd| |].
    + intros x Hx Hnew. cbn in Hnew.
      apply list_elem_of_singleton in Hnew as ->.
      apply list_elem_of_fmap in Hx as (t & E & Hin).
      specialize (Hid t Hin). lia.
    + cbn. apply NoDup_singleton.
Qed.

Lemma showToast_tracked (text : JS.value) (u : UI) :
  timers_tracked u -> timers_tracked (showToast text u).
Proof.
  intros H. unfold showToast.
  set (u0 := setActiveMessage text (log_toast text u)).
  assert (H0 : timers_tracked u0) by exact H.
  change (toastTimeoutRef u0) with (toastTimeoutRef u0).
  pose proof (cleared_tracked_toast u0 H0) as H1.
  pose proof (no_toast_timer_after_clear u0 H0) as Hnone.
  set (u1 := match toastTimeoutRef u0 with
             | Some i => clearTimeout i u0
             | None => u0
             end) in *.
  exact (armed_toast_tracked 2500 u1 H1 Hnone).
Qed.

Lemma onMessage_tracked (msg : JS.value) (u : UI) :
  timers_tracked u -> timers_tracked (onMessage msg u).
Proof.
  intros H. unfold onMessage, wsCallback.
  destruct (JS.get msg "type") as [type|]; [|exact H].
  destruct (JS.get msg "status") as [status|]; [|exact H].
  destruct (JS.get msg "message") as [message|]; [|exact H].
  destruct (JS.get msg "success") as [success|]; [|exact H].
  destruct (JS.is_str type "status").
  { destruct (JS.is_str status "vending"); [exact H|].
    destruct (bool_decide _); exact H. }
  destruct (JS.is_str type "vend-response").
  { destruct (JS.truthy success); [exact H|].
    apply showToast_tracked. exact H. }
  destruct (JS.is_str type "vend-complete"); [|exact H].
  set (u0 := setModal _ (setIsVending false u)).
  assert (H0 : timers_tracked u0) by exact H.
  pose proof (cleared_tracked_modal u0 H0) as H1.
  pose proof (no_dismiss_timer_after_clear u0 H0) as Hnone.
  set (u1 := match modalTimerRef u0 with
             | Some i => clearTimeout i u0
             | None => u0
             end) in *.
  apply showToast_tracked.
  exact (armed_dismiss_tracked 1500 u1 H1 Hnone).
Qed.

Lemma fire_tracked (t : Timer) (u : UI) :
  timers_tracked u -> timers_tracked (fire t u).
Proof.
  intros H. unfold fire.
  pose proof (clearTimeout_tracked (id t) u H) as H1.
  destruct (callback t); exact H1.
Qed.

Lemma fires_tracked (l : list Timer) :
  forall u, timers_tracked u -> timers_tracked (fold_left (fun u t => fire t u) l u).
Proof.
  induction l as [|t l IH]; intros u H; cbn; [exact H|].
  apply IH, fire_tracked, H.
Qed.

Lemma elapse_tracked (ms : N) (u : UI) :
  timers_tracked u -> timers_tracked (elapse ms u).
Proof.
  intros H. unfold elapse.
  exact (fires_tracked _ u H).
Qed.

Lemma mounted_tracked : timers_tracked mounted.
Proof.
  unfold timers_tracked. cbn. repeat split; try (intros ? H; inversion H).
  constructor.
Qed.

Lemma run_tracked (inputs : list Input) :
  forall u, timers_tracked u -> timers_tracked (run inputs u).
Proof.
  induction inputs as [|i inputs IH]; intros u H; cbn; [exact H|].
  apply IH. destruct i; [apply onMessage_tracked | apply elapse_tracked]; exact H.
Qed.

(** X10.  Whatever frames arrive and however much time passes between
    them, the page never has two dismiss timers or two toast timers
    pending: two pending timers with the same callback are the same
    timer, and no timer is pending twice. *)
Theorem one_pending_timer_per_kind (inputs : list Input) (t1 t2 : Timer) :
  t1 ∈ timers (run inputs mounted) ->
  t2 ∈ timers (run inputs mounted) ->
  callback t1 = callback t2 ->
  t1 = t2 /\ NoDup (timers (run inputs mounted)).
Proof.
  intros H1 H2 Hcb.
  destruct (run_tracked inputs mounted mounted_tracked)
    as (Hm & Ht & _ & _ & _ & _ & _ & Hnd).
  split; [|eapply NoDup_fmap_1, Hnd].
  apply (same_id_same_timer _ t1 t2 Hnd H1 H2).
  destruct (callback t1) eqn:E1.
  - pose proof (Hm t1 H1 E1). pose proof (Hm t2 H2 (eq_sym Hcb)). congruence.
  - pose proof (Ht t1 H1 E1). pose proof (Ht t2 H2 (eq_sym Hcb)). congruence.
Qed.

(** ** What the passing of time does *)

Lemma insert_by_due_elem (t x : Timer) (l : list Timer) :
  x ∈ insert_by_due t l <-> x = t \/ x ∈ l.
Proof.
  induction l as [|t' l IH]; cbn.
  - rewrite list_elem_of_singleton, elem_of_nil. tauto.
  - destruct (due t' <=? due t)%N.
    + rewrite !elem_of_cons, IH. tauto.
    + rewrite !elem_of_cons. tauto.
Qed.

Lemma by_due_elem (x : Timer) (l : list Timer) : x ∈ by_due l <-> x ∈ l.
Proof.
  unfold by_due.
  assert (H : forall acc, x ∈ fold_left (fun acc t => insert_by_due t acc) l acc
                          <-> x ∈ l \/ x ∈ acc).
  { induction l as [|t l IH]; intros acc; cbn.
    - rewrite elem_of_nil. tauto.
    - rewrite IH, insert_by_due_elem, elem_of_cons. tauto. }
  rewrite H, elem_of_nil. tauto.
Qed.


Lemma fires_activeMessage (l : list Timer) :
  forall u,
    activeMessage (fold_left (fun u t => fire t u) l u) =
    if existsb (fun t => bool_decide (callback t = ClearToast)) l
    then JS.Str "" else activeMessage u.
Proof.
  induction l as [|t l IH]; intros u; cbn [fold_left existsb]; [reflexivity|].
  rewrite IH. unfold fire.
  destruct (callback t); cbn;
    destruct (existsb _ l); reflexivity.
Qed.

(** Whether a timer of kind [cb] runs within [ms]. *)
Lemma ready_kind (cb : Callback) (ms : N) (u : UI) :
  existsb (fun t => bool_decide (callback t = cb))
          (by_due (filter (fun t => (due t ≤ now u + ms)%N) (timers u))) = true
  <-> exists t, t ∈ timers u /\ callback t = cb /\ (due t <= now u + ms)%N.
Proof.
  rewrite existsb_exists. split.
  - intros (t & Hin & Hcb). exists t.
    apply list_elem_of_In, by_due_elem, list_elem_of_filter in Hin as [Hdue Hin].
    apply bool_decide_eq_true in Hcb. auto.
  - intros (t & Hin & Hcb & Hdue). exists t. split.
    + apply list_elem_of_In, by_due_elem, list_elem_of_filter. auto.
    + apply bool_decide_eq_true, Hcb.
Qed.


Lemma elapse_activeMessage (ms : N) (u : UI) :
  (activeMessage (elapse ms u) = JS.Str "" /\
   exists t, t ∈ timers u /\ callback t = ClearToast /\ (due t <= now u + ms)%N)
  \/
  (activeMessage (elapse ms u) = activeMessage u /\
   forall t, t ∈ timers u -> callback t = ClearToast -> (now u + ms < due t)%N).
Proof.
  unfold elapse. cbn [activeMessage set_now]. rewrite fires_activeMessage.
  destruct (existsb _ _) eqn:E.
  - left. split; [reflexivity|]. apply (ready_kind ClearToast), E.
  - right. split; [reflexivity|]. intros t Hin Hcb.
    apply N.nle_gt. intros Hdue.
    assert (H : existsb (fun t => bool_decide (callback t = ClearToast))
                  (by_due (filter (fun t => (due t ≤ now u + ms)%N) (timers u)))
                = true) by (apply ready_kind; eauto).
    congruence.
Qed.

(** ** The timers a toast and a completion leave pending *)

Lemma showToast_timers (text : JS.value) (u : UI) :
  timers_tracked u ->
  let new := mkTimer (next_id u) (now u + 2500)%N ClearToast in
  new ∈ timers (showToast text u) /\
  (forall t, t ∈ timers (showToast text u) ->
             t = new \/ (t ∈ timers u /\ callback t = CloseModal)) /\
  (forall t, t ∈ timers u -> callback t = CloseModal ->
             t ∈ timers (showToast text u)) /\
  now (showToast text u) = now u /\
  activeMessage (showToast text u) = text /\
  modal (showToast text u) = modal u /\
  toasts (showToast text u) = toasts u ++ [text] /\
  isVending (showToast text u) = isVending u.
Proof.
  intros Htr new. pose proof Htr as (Hm & Ht & Hid & Hrm & Hrt & Hkm & Hkt & Hnd).
  unfold showToast.
  destruct (toastTimeoutRef u) as [i|] eqn:Hr; cbn; rewrite Hr; cbn.
  - repeat split.
    + apply elem_of_app. right. apply list_elem_of_singleton. reflexivity.
    + intros t Hin. old_or_new Hin; [|left; reflexivity].
      apply list_elem_of_filter in Hin as [Hne Hin]. right. split; [exact Hin|].
      destruct (callback t) eqn:Hcb; [reflexivity|].
      specialize (Ht t Hin Hcb). congruence.
    + intros t Hin Hcb. apply elem_of_app. left.
      apply list_elem_of_filter. split; [|exact Hin].
      intros E. assert (Hk : callback t = ClearToast)
        by (apply Hkt; [exact Hin | congruence]).
      congruence.
  - repeat split.
    + apply elem_of_app. right. apply list_elem_of_singleton. reflexivity.
    + intros t Hin. old_or_new Hin; [|left; reflexivity].
      right. split; [exact Hin|].
      destruct (callback t) eqn:Hcb; [reflexivity|].
      specialize (Ht t Hin Hcb). congruence.
    + intros t Hin Hcb. apply elem_of_app. left. exact Hin.
Qed.

Lemma failed_response_unfolded (success : JS.value)
  (more : list (string * JS.value)) (u : UI) :
  JS.truthy success = false ->
  onMessage (vend_response_frame success more) u =
  showToast (JS.or (JS.assoc "message" more) (JS.Str "Machine busy"))
            (setIsVending false u).
Proof.
  intros H. unfold onMessage, wsCallback, vend_response_frame.
  cbn [JS.get JS.assoc JS.is_str String.eqb Ascii.eqb Bool.eqb].
  rewrite H. reflexivity.
Qed.

(** X11.  A vend-response that reports failure, at any point of any run:
    the toast shows the message of the frame, or [Machine busy] when the
    frame has none or an empty one; the overlay is left as it was.  The
    toast stays for the full 2500 ms from this frame, whatever toast timer
    was pending before, and is cleared once 2500 ms have passed. *)
Theorem failed_vend_toast_lasts_2500ms
  (inputs : list Input) (success : JS.value)
  (more : list (string * JS.value)) (d : N) :
  JS.truthy success = false ->
  let u := run inputs mounted in
  let text := JS.or (JS.assoc "message" more) (JS.Str "Machine busy") in
  let u' := onMessage (vend_response_frame success more) u in
  activeMessage u' = text /\
  toasts u' = toasts u ++ [text] /\
  isVending u' = false /\
  modal u' = modal u /\
  ((d < 2500)%N -> activeMessage (elapse d u') = text) /\
  ((2500 <= d)%N -> activeMessage (elapse d u') = JS.Str "").
Proof.
  intros Hs u text u'.
  assert (Hu' : u' = showToast text (setIsVending false u))
    by (apply failed_response_unfolded, Hs).
  assert (Htr : timers_tracked (setIsVending false u))
    by (exact (run_tracked inputs mounted mounted_tracked)).
  destruct (showToast_timers text _ Htr)
    as (Hnew & Hall & _ & Hnow & Hmsg & Hmodal & Htoasts & Hvend).
  rewrite <- Hu' in Hnew, Hall, Hnow, Hmsg, Hmodal, Htoasts, Hvend.
  clearbody u'. cbn in Hnew, Hall, Hnow, Hmodal, Htoasts, Hvend.
  split; [exact Hmsg|]. split; [exact Htoasts|].
  split; [exact Hvend|].
  split; [exact Hmodal|].
  destruct (elapse_activeMessage d u') as [(Hclr & t & Hin & Hcb & Hdue) | (Hkeep & Hlate)].
  - destruct (Hall t Hin) as [-> | (_ & Hk)]; [|congruence].
    cbn in Hdue. rewrite Hnow in Hdue.
    split; [intros Hd; lia | intros _; exact Hclr].
  - specialize (Hlate _ Hnew eq_refl). cbn in Hlate. rewrite Hnow in Hlate.
    split; [intros _; congruence | intros Hd; lia].
Qed.



(** X13.  The listener leaves the page exactly as it was for a frame that
    is not JSON, for JSON [null], and for any JSON whose [type] is not
    [status], [vend-response] or [vend-complete] (the [backend-status]
    acknowledgement included). *)
Theorem unrecognized_frame_is_ignored
  (JSON_parse : string -> option JS.value) (data : string) (u : UI) :
  (forall msg, JSON_parse data = Some msg -> recognized msg = false) ->
  listener JSON_parse data u = u.
Proof.
  intros H. unfold listener.
  destruct (JSON_parse data) as [msg|]; [|reflexivity].
  specialize (H msg eq_refl). unfold recognized in H.
  unfold onMessage, wsCallback.
  destruct (JS.get msg "type") as [type|]; [|reflexivity].
  apply orb_false_iff in H as [H H3]. apply orb_false_iff in H as [H1 H2].
  rewrite H1, H2, H3.
  destruct (JS.get msg "status"), (JS.get msg "message"), (JS.get msg "success");
    reflexivity.
Qed.

Lemma substring_all (s : string) : String.substring 0 (String.length s) s = s.
Proof. induction s as [|c s IH]; cbn; [reflexivity | rewrite IH; reflexivity]. Qed.

(** X14.  The WebSocket address of the relay: with no [VITE_API_BASE] it
    is [ws://localhost:3001]; for a base that starts with [http] the
    scheme becomes [ws] and the rest is kept, so an [https] base gives a
    [wss] address. *)
Theorem backend_ws_url_scheme (rest : string) :
  backend_ws_url None = "ws://localhost:3001" /\
  backend_ws_url (Some "") = "ws://localhost:3001" /\
  backend_ws_url (Some ("http" ++ rest)%string) = ("ws" ++ rest)%string /\
  backend_ws_url (Some ("https://" ++ rest)%string) = ("wss://" ++ rest)%string.
Proof.
  split; [reflexivity|]. split; [reflexivity|].
  assert (H : forall r, backend_ws_url (Some ("http" ++ r)%string)
                        = ("ws" ++ r)%string).
  { intros r. unfold backend_ws_url.
    change ("http" ++ r)%string
      with (String "h"%char (String "t"%char (String "t"%char (String "p"%char r)))).
    cbn. replace (String.prefix "" r) with true by (destruct r; reflexivity).
    rewrite ?Nat.sub_0_r, substring_all. reflexivity. }
  split; [apply H|]. exact (H ("s://" ++ rest)%string).
Qed.

End ClientMore.

(** * More properties of the product loader *)

Section CatalogMore.

Import Catalog.

Variable readFile : string -> option string.
Variable JSON_parse : string -> option JS.value.
Variable Number_ : JS.value -> option JS.value.
Variable path_resolve : string -> string -> string.
Variable dirname cwd : string.

#[local] Abbreviation mapProduct := (Catalog.mapProduct Number_).
#[local] Abbreviation tryCandidate := (Catalog.tryCandidate readFile JSON_parse Number_).
#[local] Abbreviation loadFrom := (Catalog.loadFrom readFile JSON_parse Number_).
#[local] Abbreviation candidates := (Catalog.candidates path_resolve dirname cwd).
#[local] Abbreviation loadProducts :=
  (Catalog.loadProducts readFile JSON_parse Number_ path_resolve dirname cwd).
#[local] Abbreviation getProducts :=
  (Catalog.getProducts readFile JSON_parse Number_ path_resolve dirname cwd).
#[local] Abbreviation unmappable := (Catalog.unmappable Number_).
#[local] Abbreviation candidate_fails :=
  (Catalog.candidate_fails readFile JSON_parse Number_).



(** X16.  The candidates are tried in order and the first one that does
    not fail decides: when it holds an array on none of whose elements
    [mapProduct] throws (no [null], no price that makes [Number] throw),
    the answer is 200 with one product per element, each the [mapProduct]
    of the element at the same position; the candidates after it play no
    part. *)
Theorem first_usable_candidate_wins
  (pre post : list string) (p content : string) (xs : list JS.value) :
  candidates = pre ++ p :: post ->
  Forall candidate_fails pre ->
  readFile p = Some content ->
  JSON_parse content = Some (JS.Arr xs) ->
  (forall x, x ∈ xs ->
     x <> JS.Null /\ x <> JS.Undefined /\
     forall product_price,
       JS.get x "product_price" = Some product_price ->
       Number_ (JS.nullish product_price (JS.Num 0)) <> None) ->
  exists products,
    getProducts = mkResponse 200 (JS.Arr products) /\
    length products = length xs /\
    (forall i x, xs !! i = Some x -> mapProduct x = products !! i).
Proof using.
  intros Hc Hpre Hread Hparse Hmappable.
  destruct (mapM mapProduct xs) as [products|] eqn:Hmap.
  - exists products. unfold Catalog.getProducts, Catalog.loadProducts.
    rewrite Hc.
    destruct (loadFrom_skips_failures readFile JSON_parse Number_
                pre (p :: post) None Hpre) as [e ->].
    cbn. unfold Catalog.tryCandidate. rewrite Hread, Hparse, Hmap.
    split; [reflexivity|].
    apply mapM_Some in Hmap. split.
    + symmetry. eapply Forall2_length, Hmap.
    + intros i x Hx.
      destruct (Forall2_lookup_l _ _ _ _ _ Hmap Hx) as (y & Hy & Hxy).
      rewrite Hy. exact Hxy.
  - apply map_throws in Hmap as (x & Hin & Hx).
    destruct (Hmappable x Hin) as (Hn & Hu & Hprice).
    destruct Hx as [-> | [-> | (pp & Hget & HN)]]; try contradiction.
    destruct (Hprice pp Hget HN).
Qed.

Lemma tryCandidate_error (p : string) (e : Error) :
  tryCandidate p = inl e -> forall m, e <> Failure m.
Proof using.
  unfold Catalog.tryCandidate. intros H m.
  destruct (readFile p); [|injection H as <-; discriminate].
  destruct (JSON_parse s) as [[]|]; try discriminate;
    try (injection H as <-; discriminate).
  destruct (mapM mapProduct xs); [discriminate|].
  injection H as <-. discriminate.
Qed.

(** X17.  When the loader fails, the error it throws is the error of the
    last candidate, [path.resolve(process.cwd(), '../data.json')]; the
    fallback [Error('Failed to read data.json')] of line 88 is never
    thrown. *)
Theorem load_error_is_of_last_candidate (e : Error) :
  loadProducts = inl e ->
  tryCandidate (path_resolve cwd "../data.json") = inl e /\
  (forall m, e <> Failure m).
Proof using.
  unfold Catalog.loadProducts, Catalog.candidates. cbn [Catalog.loadFrom].
  destruct (tryCandidate (path_resolve dirname "../data.json")); [|discriminate].
  destruct (tryCandidate (path_resolve dirname "../../data.json")); [|discriminate].
  destruct (tryCandidate (path_resolve cwd "data.json")); [|discriminate].
  destruct (tryCandidate (path_resolve cwd "../data.json")) as [e'|] eqn:E;
    [|discriminate].
  cbn. intros [= <-]. split; [reflexivity|].
  exact (tryCandidate_error _ _ E).
Qed.

End CatalogMore.

(** * The statements above at concrete runs *)

Section MoreExamples.

Import Relay.

Lemma vmcSocket_is_newest_socket_witness :
  exists i, vmcSocket dropped = Some i /\
            length (sockets dropped) = S i /\
            is_Some (sockets dropped !! i).
Proof.
  exact (vmcSocket_is_newest_socket Sample.stringify Sample.parse
           [UpOpen 0; UpClose 0] (Ok tt dropped) eq_refl).
Defined.

Lemma armed_flag_has_pending_timer_witness : 0 < timers dropped.
Proof.
  exact (armed_flag_has_pending_timer Sample.stringify Sample.parse
           [UpOpen 0; UpClose 0] (Ok tt dropped) eq_refl eq_refl).
Defined.

Lemma dead_upstream_has_pending_timer_witness : 0 < timers dropped.
Proof.
  exact (dead_upstream_has_pending_timer Sample.stringify Sample.parse
           [UpOpen 0; UpClosing 0; UpClose 0] (Ok tt dropped) eq_refl eq_refl).
Defined.

(** A payment has arrived before the first socket opened. *)
Lemma handler_throws_exactly_on_stale_open_witness :
  let s := mkState [mkUp CONNECTING []; mkUp CONNECTING []] (Some 1) false false
                   [vendCommand [JS.Num 7]] 0 [] [] in
  (exists x s', step Sample.stringify Sample.parse (UpOpen 0) s = Threw x s') /\
  ~ (exists x s', step Sample.stringify Sample.parse (UpOpen 1) s = Threw x s').
Proof.
  intros s.
  pose proof (handler_throws_exactly_on_stale_open Sample.stringify Sample.parse
                [pay_request [JS.Num 7]] s) as H.
  split.
  - apply (H (UpOpen 0) eq_refl). exists 0, 1.
    repeat split; discriminate.
  - intros Hthrow. apply (H (UpOpen 1) eq_refl) in Hthrow
      as (i & j & [= <-] & [= <-] & Hne & _).
    apply Hne. reflexivity.
Defined.

Lemma queued_payments_flush_in_order_witness :
  exists s',
    run Sample.stringify Sample.parse
        [pay_request [JS.Num 7]; pay_request [JS.Num 8; JS.Num 9]; UpOpen 2]
        booted = Some (Ok tt s') /\
    sockets s' !! 2 =
      Some (mkUp OPEN (map Sample.stringify
                         [vendCommand [JS.Num 7];
                          vendCommand [JS.Num 8; JS.Num 9]])) /\
    pendingMessagesQueue s' = [] /\
    connected s' = true /\
    attempts s' = 3.
Proof.
  apply (queued_payments_flush_in_order Sample.stringify Sample.parse
           booted [JS.Num 7] [[JS.Num 8; JS.Num 9]] eq_refl).
  repeat constructor; discriminate.
Defined.

Lemma error_then_close_arms_one_timer_witness :
  exists s',
    run Sample.stringify Sample.parse [UpError 0; UpClose 0] up
    = Some (Ok tt s') /\
    timers s' = 1 /\
    vmcReconnectScheduled s' = true /\
    vmcConnected s' = false /\
    state_of 0 s' = Some CLOSED /\
    attempts s' = 1 /\
    pendingMessagesQueue s' = [].
Proof.
  exact (error_then_close_arms_one_timer Sample.stringify Sample.parse
           up 0 eq_refl).
Defined.


Lemma pay_answers_every_request_witness :
  pay Sample.stringify JS.Undefined up =
  Ok (mkResponse 400 (JS.Obj [("error", JS.Str "items array required")])) up /\
  exists i old,
    vmcSocket up = Some i /\
    sockets up !! i = Some (mkUp OPEN old) /\
    pay Sample.stringify (JS.Obj [("items", JS.Arr [JS.Num 7])]) up =
    Ok (mkResponse 200
          (JS.Obj [("ok", JS.Bool true);
                   ("message", JS.Str "Payment processed, vending requested");
                   ("requestedItems", JS.Arr [JS.Num 7])]))
       (mkState (<[i := mkUp OPEN
                          (old ++ [Sample.stringify
                                     (JS.Obj [("type", JS.Str "vend");
                                              ("items", JS.Arr [JS.Num 7])])])]>
                   (sockets up))
                (vmcSocket up) (vmcConnected up) (vmcReconnectScheduled up)
                (pendingMessagesQueue up) (timers up) (clients up)
                (stringified up ++ [JS.Obj [("type", JS.Str "vend");
                                            ("items", JS.Arr [JS.Num 7])]])).
Proof.
  split.
  - destruct (pay_answers_every_request Sample.stringify JS.Undefined up)
      as (items & Hget & _ & H400 & _).
    injection Hget as <-. exact (H400 eq_refl).
  - destruct (pay_answers_every_request Sample.stringify
                (JS.Obj [("items", JS.Arr [JS.Num 7])]) up)
      as (items & Hget & _ & _ & _ & Hup).
    injection Hget as <-. exact (Hup eq_refl eq_refl).
Defined.

Lemma connection_is_acknowledged_and_probed_witness :
  exists s',
    step Sample.stringify Sample.parse Connection dropped = Ok None s' /\
    clients s' = [mkClient OPEN false [Sample.stringify ack]] /\
    pendingMessagesQueue s' = [statusCommand] /\
    transmitted s' = [[]; []] /\
    vmcSocket s' = Some 1.
Proof.
  destruct (connection_is_acknowledged_and_probed
              Sample.stringify Sample.parse dropped)
    as (s' & Hstep & Hclients & Hdown & _).
  exists s'. split; [exact Hstep|]. split; [exact Hclients|].
  exact (Hdown eq_refl).
Defined.

End MoreExamples.

Section MoreClientExamples.

Import Client.

Lemma one_pending_timer_per_kind_witness :
  let t := mkTimer 3 1500%N CloseModal in
  t = t /\
  NoDup (timers (run [Recv (vend_complete_frame []);
                      Recv (vend_complete_frame [])] mounted)).
Proof.
  intros t.
  assert (Hin : t ∈ timers (run [Recv (vend_complete_frame []);
                                 Recv (vend_complete_frame [])] mounted))
    by (vm_compute; apply list_elem_of_here).
  exact (one_pending_timer_per_kind _ t t Hin Hin eq_refl).
Defined.

Lemma failed_vend_toast_lasts_2500ms_witness :
  let u' := onMessage (vend_response_frame (JS.Bool false) [])
              (run [Recv (vend_response_frame (JS.Bool false)
                            [("message", JS.Str "Out of stock")]);
                    Wait 2000] mounted) in
  activeMessage u' = JS.Str "Machine busy" /\
  activeMessage (elapse 2499 u') = JS.Str "Machine busy" /\
  activeMessage (elapse 2500 u') = JS.Str "".
Proof.
  intros u'.
  pose proof (fun d => failed_vend_toast_lasts_2500ms
                [Recv (vend_response_frame (JS.Bool false)
                         [("message", JS.Str "Out of stock")]); Wait 2000]
                (JS.Bool false) [] d eq_refl) as H.
  split; [exact (proj1 (H 0%N))|]. split.
  - exact (proj1 (proj2 (proj2 (proj2 (proj2 (H 2499%N))))) ltac:(lia)).
  - exact (proj2 (proj2 (proj2 (proj2 (proj2 (H 2500%N))))) ltac:(lia)).
Defined.


Lemma unrecognized_frame_is_ignored_witness :
  listener Sample.parse "{}" mounted = mounted /\
  listener Sample.parse "not json" mounted = mounted.
Proof.
  split.
  - apply unrecognized_frame_is_ignored. intros msg [= <-]. reflexivity.
  - apply unrecognized_frame_is_ignored. intros msg [=].
Defined.

End MoreClientExamples.

Section MoreCatalogExamples.

Import Catalog.


Lemma first_usable_candidate_wins_witness :
  exists products,
    getProducts (Sample.readFile (Sample.stringify Sample.one_product))
                Sample.parse_catalog Sample.Number_
                Sample.path_resolve Sample.dirname Sample.cwd
    = mkResponse 200 (JS.Arr products) /\
    length products = 1.
Proof.
  destruct (first_usable_candidate_wins
              (Sample.readFile (Sample.stringify Sample.one_product))
              Sample.parse_catalog Sample.Number_
              Sample.path_resolve Sample.dirname Sample.cwd
              [] _ (Sample.path_resolve Sample.dirname "../data.json")
              (Sample.stringify Sample.one_product)
              _ eq_refl (Forall_nil_2 _) eq_refl eq_refl)
    as (products & Hget & Hlen & _).
  - intros x Hin. apply list_elem_of_singleton in Hin as ->.
    split; [discriminate|]. split; [discriminate|].
    intros pp [= <-]. discriminate.
  - exists products. split; [exact Hget | exact Hlen].
Defined.

Lemma load_error_is_of_last_candidate_witness :
  tryCandidate (Sample.readFile "oops") Sample.parse Sample.Number_
               (Sample.path_resolve Sample.cwd "../data.json")
  = inl (ReadError (Sample.path_resolve Sample.cwd "../data.json")).
Proof.
  exact (proj1 (load_error_is_of_last_candidate
                  (Sample.readFile "oops") Sample.parse Sample.Number_
                  Sample.path_resolve Sample.dirname Sample.cwd
                  (ReadError (Sample.path_resolve Sample.cwd "../data.json"))
                  eq_refl)).
Defined.

End MoreCatalogExamples.
